(** * Resilience primitives of [trading/resilience.py]

    A shallow embedding of the retry manager, the circuit breaker, the
    sliding-window rate limiter, the bulkhead, the timeout manager and the
    resilience manager that composes them, followed by the properties of
    the design document that concern them.

    Conventions.
    - Python [int] is [Z]; Python [float] (delays, instants, durations) is
      read as an exact rational [Q].
    - [datetime.now], [time.time] and [random.random] read an explicit
      environment; [asyncio.sleep] advances its clock.
    - A mutable object ([self]) is threaded through its methods; objects
      held by the manager live in a store and are named by their address.
    - Every invocation of the caller's operation is recorded in a trace,
      which the operation itself cannot touch. *)

From Stdlib Require Import ZArith QArith Qpower Qabs Lqa Lia List Sorted String.
From stdpp Require Import gmap strings list.

Local Open Scope Z_scope.

(** ** Exceptions *)

Module Exc.

(** The exception classes that [resilience.py] raises or catches, and
    [UserError] for any other class an operation raises (a direct subclass
    of [Exception]). *)
Inductive ExcClass : Type :=
| BaseException
| Exception
| CancelledError
| AsyncioTimeoutError
| TypeError
| AttributeError
| OverflowError
| CircuitBreakerException
| CircuitBreakerOpenException
| CircuitBreakerTimeoutException
| TimeoutException
| UserError (name : string).

#[global] Instance ExcClass_eq_dec : EqDecision ExcClass.
Proof. solve_decision. Defined.

(** The direct base class. *)
Definition base (c : ExcClass) : option ExcClass :=
  match c with
  | BaseException => None
  | Exception => Some BaseException
  | CancelledError => Some BaseException
  | CircuitBreakerOpenException => Some CircuitBreakerException
  | CircuitBreakerTimeoutException => Some CircuitBreakerException
  | AsyncioTimeoutError | TypeError | AttributeError | OverflowError
  | CircuitBreakerException | TimeoutException | UserError _ =>
      Some Exception
  end.

Fixpoint mro (depth : nat) (c : ExcClass) : list ExcClass :=
  c :: match depth with
       | O => []
       | S d => match base c with
                | None => []
                | Some p => mro d p
                end
       end.

(** [issubclass c d]; the hierarchy is at most four classes deep. *)
Definition issubclass (c d : ExcClass) : bool :=
  bool_decide (d ∈ mro 4 c).

(** A raised exception object: its class and [str(e)]. *)
Record Exn : Type := mkExn { exc_class : ExcClass; exc_msg : string }.

#[global] Instance Exn_eq_dec : EqDecision Exn.
Proof. solve_decision. Defined.

Definition isinstance (e : Exn) (c : ExcClass) : bool :=
  issubclass (exc_class e) c.

(** [except tuple(exceptions)] *)
Definition caught_by (e : Exn) (exceptions : list ExcClass) : bool :=
  existsb (isinstance e) exceptions.

End Exc.
Export Exc.

(** ** The environment and the effect monad *)

Inductive Outcome (A : Type) : Type :=
| Ok (a : A)
| Raise (e : Exn).
Arguments Ok {A} a.
Arguments Raise {A} e.

Section Effects.
Context {S R : Type}.

(** What the program reads from outside: the clock, the stream of values
    of [random.random()] still to come, and the state the caller's
    operation works on. *)
Record Env : Type := mkEnv {
  clock : Q;
  rng : nat -> Q;
  user : S
}.

(** The caller's unit of work.  [run deadline env] is what awaiting it
    yields: under [asyncio.wait_for(.., timeout=d)] the deadline is
    [Some d], and an operation that overruns it yields
    [Raise asyncio.TimeoutError]; called directly the deadline is [None].
    [op_name] is what reading [func.__name__] yields: the name, or the
    [AttributeError] of a callable that has none (a [functools.partial]
    object). *)
Record Op : Type := mkOp {
  op_name : Outcome string;
  is_coroutine : bool;
  run : option Q -> Env -> Outcome R * Env
}.

Inductive Event : Type :=
| EvCall (o : Outcome R)
| EvSleep (d : Q).

Record World : Type := mkWorld {
  env : Env;
  trace : list Event
}.

Definition M (A : Type) : Type := World -> Outcome A * World.

Definition ret {A} (a : A) : M A := fun w => (Ok a, w).

(** A computation that touches nothing. *)
Definition pure {A} (o : Outcome A) : M A := fun w => (o, w).

Definition raise {A} (e : Exn) : M A := fun w => (Raise e, w).

Definition bind {A B} (m : M A) (k : A -> M B) : M B :=
  fun w => match m w with
           | (Ok a, w') => k a w'
           | (Raise e, w') => (Raise e, w')
           end.

(** [datetime.now(timezone.utc)] and [time.time()] *)
Definition now : M Q := fun w => (Ok (clock (env w)), w).

(** [random.random()] *)
Definition random : M Q :=
  fun w =>
    let e := env w in
    (Ok (rng e O),
     mkWorld (mkEnv (clock e) (fun n => rng e (Datatypes.S n)) (user e))
             (trace w)).

(** [await asyncio.sleep(d)]: a delay that is not positive returns at once. *)
Definition sleep (d : Q) : M unit :=
  fun w =>
    let e := env w in
    let d' := if Qle_bool d 0 then 0%Q else d in
    (Ok tt,
     mkWorld (mkEnv (clock e + d')%Q (rng e) (user e))
             (trace w ++ [EvSleep d])).

(** Invoking the caller's operation. *)
Definition invoke (op : Op) (deadline : option Q) : M R :=
  fun w =>
    let '(o, e') := run op deadline (env w) in
    (o, mkWorld e' (trace w ++ [EvCall o])).

(** The outcomes of the invocations recorded in a trace, oldest first. *)
Fixpoint calls (tr : list Event) : list (Outcome R) :=
  match tr with
  | [] => []
  | EvCall o :: tr' => o :: calls tr'
  | EvSleep _ :: tr' => calls tr'
  end.

End Effects.

Arguments Env : clear implicits.
Arguments Op : clear implicits.
Arguments Event : clear implicits.
Arguments World : clear implicits.
Arguments M : clear implicits.

Notation "'let*' x ':=' m 'in' k" := (bind m (fun x => k))
  (at level 10, x name, m at level 100, k at level 200).

(** [range(lo, hi)] *)
Definition range (lo hi : Z) : list Z :=
  map (fun i => lo + Z.of_nat i) (seq 0 (Z.to_nat (hi - lo))).

(** The magnitude from which a result rounds beyond the largest double,
    [2^1024 - 2^970]. *)
Definition float_overflow : Q := inject_Z (2 ^ 1024 - 2 ^ 970).

Definition overflows (x : Q) : bool := Qle_bool float_overflow (Qabs x).

(** [x ** n] for a float [x] and an int [n >= 0]: the power, or the
    [OverflowError] that Python raises when the result leaves the float
    range. *)
Definition overflow_error : Exn :=
  mkExn OverflowError "(34, 'Numerical result out of range')".

Definition float_pow (x : Q) (n : Z) : Outcome Q :=
  if overflows (x ^ n) then Raise overflow_error else Ok (x ^ n)%Q.

(** Python's [min(a, b)]: [b] when [b < a], otherwise [a]. *)
Definition py_min (a b : Q) : Q :=
  if Qlt_le_dec b a then b else a.

(** ** class RetryManager *)

Module RetryManager.

Inductive RetryStrategy : Type := FIXED | EXPONENTIAL | LINEAR | RANDOM.

Record RetryConfig : Type := mkRetryConfig {
  max_attempts : Z;
  base_delay : Q;
  max_delay : Q;
  strategy : RetryStrategy;
  jitter : bool;
  backoff_multiplier : Q
}.

Definition default_config : RetryConfig :=
  mkRetryConfig 3 1 60 EXPONENTIAL true 2.

Section Retry.
Context {S R : Type}.

(** [random.uniform(a, b)] is [a + (b - a) * random()]. *)
Definition uniform (a b : Q) : M S R Q :=
  let* u := random in ret (a + (b - a) * u)%Q.

(** The value of [delay] when the strategy has been applied and the
    jitter has not. *)
Definition strategy_delay (config : RetryConfig) (attempt : Z) : M S R Q :=
  match strategy config with
  | FIXED => ret (base_delay config)
  | EXPONENTIAL =>
      let* power := pure (float_pow (backoff_multiplier config)
                                    (attempt - 1)) in
      ret (base_delay config * power)%Q
  | LINEAR => ret (base_delay config * inject_Z attempt)%Q
  | RANDOM =>
      uniform (base_delay config) (base_delay config * inject_Z attempt)%Q
  end.

Definition apply_jitter (config : RetryConfig) (delay : Q) : M S R Q :=
  if jitter config then
    let* jitter_factor := uniform (1 # 2) (3 # 2) in
    ret (delay * jitter_factor)%Q
  else ret delay.

Definition calculate_delay (config : RetryConfig) (attempt : Z) : M S R Q :=
  if attempt <=? 0 then ret 0%Q
  else
    let* delay := strategy_delay config attempt in
    let* delay := apply_jitter config delay in
    ret (py_min delay (max_delay config)).

(** [raise last_exception]; raising [None] is a [TypeError]. *)
Definition raise_last {A} (last_exception : option Exn) : M S R A :=
  match last_exception with
  | Some e => raise e
  | None =>
      raise (mkExn TypeError "exceptions must derive from BaseException")
  end.

(** The code after the loop: the log call reads [func.__name__], then
    [raise last_exception]. *)
Definition after_loop {A} (func_name : Outcome string)
    (last_exception : option Exn) : M S R A :=
  match func_name with
  | Raise e_name => raise e_name
  | Ok _ => raise_last last_exception
  end.

(** The body of the [try] statement: the call, and on success after a
    first attempt the log call, which reads [func.__name__]. *)
Definition attempt_body {A} (func_name : Outcome string) (func : M S R A)
    (attempt : Z) : M S R A :=
  fun w =>
    match func w with
    | (Ok result, w1) =>
        if 1 <? attempt then
          match func_name with
          | Ok _ => (Ok result, w1)
          | Raise e_name => (Raise e_name, w1)
          end
        else (Ok result, w1)
    | (Raise e, w1) => (Raise e, w1)
    end.

(** The [for attempt in ...] loop of [execute_with_retry], over the
    attempt numbers still to come.  The handler's log call reads
    [func.__name__] before anything else, and an exception raised in the
    handler (by that, or by [calculate_delay]) leaves the function. *)
Fixpoint retry_loop {A} (config : RetryConfig) (func_name : Outcome string)
    (func : M S R A) (exceptions : list ExcClass) (attempts : list Z)
    (last_exception : option Exn) : M S R A :=
  match attempts with
  | [] => after_loop func_name last_exception
  | attempt :: rest =>
      fun w =>
        match attempt_body func_name func attempt w with
        | (Ok result, w1) => (Ok result, w1)
        | (Raise e, w1) =>
            if caught_by e exceptions then
              match func_name with
              | Raise e_name => (Raise e_name, w1)
              | Ok _ =>
                  if attempt =? max_attempts config then
                    after_loop func_name (Some e) w1
                  else
                    (let* delay := calculate_delay config attempt in
                     let* _ := sleep delay in
                     retry_loop config func_name func exceptions rest
                       (Some e)) w1
              end
            else (Raise e, w1)
        end
  end.

(** [func_name] is [func.__name__] of the callable [func]. *)
Definition execute_with_retry {A} (config : RetryConfig)
    (func_name : Outcome string) (func : M S R A)
    (exceptions : option (list ExcClass)) : M S R A :=
  let exceptions :=
    match exceptions with
    | None => [Exception]
    | Some l => l
    end in
  retry_loop config func_name func exceptions
    (range 1 (max_attempts config + 1)) None.

End Retry.
End RetryManager.

(** ** class CircuitBreaker *)

Module CircuitBreaker.

Inductive CircuitState : Type := CLOSED | OPEN | HALF_OPEN.

#[global] Instance CircuitState_eq_dec : EqDecision CircuitState.
Proof. solve_decision. Defined.

Record CircuitBreakerConfig : Type := mkConfig {
  failure_threshold : Z;
  recovery_timeout : Q;
  success_threshold : Z;
  timeout : Q
}.

Definition default_config : CircuitBreakerConfig := mkConfig 5 60 3 30.

Record t : Type := mk {
  name : string;
  config : CircuitBreakerConfig;
  state : CircuitState;
  failure_count : Z;
  success_count : Z;
  last_failure_time : option Q;
  last_success_time : option Q;
  total_requests : Z;
  total_failures : Z;
  total_successes : Z
}.

(** [__init__] *)
Definition init (name : string) (config : CircuitBreakerConfig) : t :=
  mk name config CLOSED 0 0 None None 0 0 0.

Record CircuitBreakerStats : Type := mkStats {
  stats_state : CircuitState;
  stats_failure_count : Z;
  stats_success_count : Z;
  stats_last_failure_time : option Q;
  stats_last_success_time : option Q;
  stats_total_requests : Z;
  stats_total_failures : Z;
  stats_total_successes : Z
}.

Definition get_stats (self : t) : CircuitBreakerStats :=
  mkStats (state self) (failure_count self) (success_count self)
          (last_failure_time self) (last_success_time self)
          (total_requests self) (total_failures self) (total_successes self).

(** [t_now] is the reading of [datetime.now(timezone.utc)]. *)
Definition _should_attempt_reset (self : t) (t_now : Q) : bool :=
  if decide (state self <> OPEN) then false
  else
    match last_failure_time self with
    | None => true
    | Some t_fail =>
        let time_since_failure := (t_now - t_fail)%Q in
        Qle_bool (recovery_timeout (config self)) time_since_failure
    end.

Definition _record_success (self : t) (t_now : Q) : t :=
  let total_requests' := total_requests self + 1 in
  let total_successes' := total_successes self + 1 in
  if decide (state self = HALF_OPEN) then
    let success_count' := success_count self + 1 in
    if success_threshold (config self) <=? success_count' then
      mk (name self) (config self) CLOSED 0 0
         (last_failure_time self) (Some t_now)
         total_requests' (total_failures self) total_successes'
    else
      mk (name self) (config self) (state self) (failure_count self)
         success_count'
         (last_failure_time self) (Some t_now)
         total_requests' (total_failures self) total_successes'
  else
    mk (name self) (config self) (state self) 0 (success_count self)
       (last_failure_time self) (Some t_now)
       total_requests' (total_failures self) total_successes'.

Definition _record_failure (self : t) (t_now : Q) : t :=
  let total_requests' := total_requests self + 1 in
  let total_failures' := total_failures self + 1 in
  if decide (state self = HALF_OPEN) then
    mk (name self) (config self) OPEN (failure_count self) 0
       (Some t_now) (last_success_time self)
       total_requests' total_failures' (total_successes self)
  else
    let failure_count' := failure_count self + 1 in
    mk (name self) (config self)
       (if failure_threshold (config self) <=? failure_count'
        then OPEN else state self)
       failure_count' (success_count self)
       (Some t_now) (last_success_time self)
       total_requests' total_failures' (total_successes self).

(** The first part of [call], up to the [try]: [None] when the call is
    refused, otherwise the breaker as the operation finds it. *)
Definition admission (self : t) (t_now : Q) : option t :=
  if decide (state self = OPEN) then
    if negb (_should_attempt_reset self t_now) then None
    else
      Some (mk (name self) (config self) HALF_OPEN (failure_count self) 0
               (last_failure_time self) (last_success_time self)
               (total_requests self) (total_failures self)
               (total_successes self))
  else Some self.

Definition open_error (self : t) : Exn :=
  mkExn CircuitBreakerOpenException
        ("Circuit breaker " ++ name self ++ " is open").

Definition timeout_error (self : t) : Exn :=
  mkExn CircuitBreakerTimeoutException
        ("Circuit breaker " ++ name self ++ " timeout").

Definition failure_error (self : t) (e : Exn) : Exn :=
  mkExn CircuitBreakerException
        ("Circuit breaker " ++ name self ++ " failure: " ++ exc_msg e).

Section Call.
Context {S R : Type}.

(** The [try] statement of [call]: the operation is awaited under the
    call timeout when it is a coroutine function, and called directly
    otherwise; only an [Exception] is caught. *)
Definition execute (self : t) (func : Op S R)
    : World S R -> Outcome R * t * World S R :=
  fun w =>
    let deadline :=
      if is_coroutine func then Some (timeout (config self)) else None in
    match invoke func deadline w with
    | (Ok result, w1) =>
        (Ok result, _record_success self (clock (env w1)), w1)
    | (Raise e, w1) =>
        if isinstance e AsyncioTimeoutError then
          (Raise (timeout_error self),
           _record_failure self (clock (env w1)), w1)
        else if isinstance e Exception then
          (Raise (failure_error self e),
           _record_failure self (clock (env w1)), w1)
        else (Raise e, self, w1)
    end.

Definition call (self : t) (func : Op S R)
    : World S R -> Outcome R * t * World S R :=
  fun w =>
    match admission self (clock (env w)) with
    | None => (Raise (open_error self), self, w)
    | Some self1 => execute self1 func w
    end.

End Call.
End CircuitBreaker.

(** ** class RateLimiter *)

Module RateLimiter.

Record t : Type := mk {
  max_requests : Z;
  time_window : Q;
  requests : list Q
}.

Definition init (max_requests : Z) (time_window : Q) : t :=
  mk max_requests time_window [].

(** [while self.requests and self.requests[0] <= cutoff: popleft()] *)
Fixpoint remove_old (requests : list Q) (cutoff : Q) : list Q :=
  match requests with
  | [] => []
  | r :: rest =>
      if Qle_bool r cutoff then remove_old rest cutoff else requests
  end.

(** The body of [acquire] once [now = time.time()] has been read. *)
Definition acquire_at (self : t) (t_now : Q) : bool * t :=
  let requests' :=
    remove_old (requests self) (t_now - time_window self)%Q in
  if Z.of_nat (length requests') <? max_requests self then
    (true, mk (max_requests self) (time_window self) (requests' ++ [t_now]))
  else
    (false, mk (max_requests self) (time_window self) requests').

Section Wait.
Context {S R : Type}.

Definition acquire (self : t) : World S R -> bool * t * World S R :=
  fun w => (acquire_at self (clock (env w)), w).

(** [wait_for_permit] polls every 0.1 s; [None] when no permit was
    granted within [fuel] further polls. *)
Fixpoint wait_for_permit (fuel : nat) (self : t)
    : World S R -> option (t * World S R) :=
  fun w =>
    let '(granted, self1, w1) := acquire self w in
    if granted : bool then Some (self1, w1)
    else
      match fuel with
      | O => None
      | Datatypes.S fuel' =>
          let '(_, w2) := sleep (1 # 10) w1 in
          wait_for_permit fuel' self1 w2
      end.

End Wait.
End RateLimiter.

(** ** class Bulkhead *)

Module Bulkhead.

(** [semaphore] is the number of free permits of the
    [asyncio.Semaphore]. *)
Record t : Type := mk {
  name : string;
  max_concurrent : Z;
  semaphore : Z;
  active_operations : Z
}.

(** [asyncio.Semaphore(value)] refuses a negative value. *)
Definition init (name : string) (max_concurrent : Z) : Outcome t :=
  if max_concurrent <? 0 then
    Raise (mkExn (UserError "ValueError")
                 "Semaphore initial value must be >= 0")
  else Ok (mk name max_concurrent max_concurrent 0).

(** [acquire], up to the [yield]: [None] when no permit is free and the
    task stays suspended. *)
Definition acquire (self : t) : option t :=
  if semaphore self <=? 0 then None
  else Some (mk (name self) (max_concurrent self)
                (semaphore self - 1) (active_operations self + 1)).

(** [acquire], the [finally] block. *)
Definition release (self : t) : t :=
  mk (name self) (max_concurrent self)
     (semaphore self + 1) (active_operations self - 1).

Record Stats : Type := mkStats {
  stats_name : string;
  stats_max_concurrent : Z;
  stats_active_operations : Z;
  stats_available_permits : Z
}.

Definition get_stats (self : t) : Stats :=
  mkStats (name self) (max_concurrent self) (active_operations self)
          (semaphore self).

End Bulkhead.

(** ** class TimeoutManager *)

Module TimeoutManager.

Record t : Type := mk { default_timeout : Q }.

Definition init : t := mk 30.

Section Timeout.
Context {S R : Type}.
(** Python's [str] of a float, used in the message only. *)
Variable str_float : Q -> string.

(** [timeout or self.default_timeout]: [None] and [0.0] are falsy. *)
Definition effective_timeout (self : t) (timeout : option Q) : Q :=
  match timeout with
  | None => default_timeout self
  | Some d => if Qeq_bool d 0 then default_timeout self else d
  end.

(** Both branches await the operation under [asyncio.wait_for]; the
    handler of the timeout reads [func.__name__]. *)
Definition execute_with_timeout (self : t) (func : Op S R)
    (timeout : option Q) : M S R R :=
  fun w =>
    let timeout := effective_timeout self timeout in
    match invoke func (Some timeout) w with
    | (Ok result, w1) => (Ok result, w1)
    | (Raise e, w1) =>
        if isinstance e AsyncioTimeoutError then
          match op_name func with
          | Raise e_name => (Raise e_name, w1)
          | Ok name =>
              (Raise (mkExn TimeoutException
                            ("Function " ++ name ++ " timed out after "
                             ++ str_float timeout ++ " seconds")), w1)
          end
        else (Raise e, w1)
    end.

End Timeout.
End TimeoutManager.

(** ** class ResilienceManager *)

Module ResilienceManager.

(** The objects the manager has constructed, by address. *)
Record Store : Type := mkStore {
  cb_objs : list CircuitBreaker.t;
  rl_objs : list RateLimiter.t;
  bh_objs : list Bulkhead.t
}.

Definition empty_store : Store := mkStore [] [] [].

Record t : Type := mk {
  circuit_breakers : gmap string nat;
  rate_limiters : gmap string nat;
  bulkheads : gmap string nat;
  timeout_manager : TimeoutManager.t
}.

Definition init : t := mk ∅ ∅ ∅ TimeoutManager.init.

(** Each [create_*] returns the address of the object it constructed. *)
Definition create_circuit_breaker (self : t) (name : string)
    (config : CircuitBreaker.CircuitBreakerConfig) (st : Store)
    : nat * t * Store :=
  let circuit_breaker := length (cb_objs st) in
  (circuit_breaker,
   mk (<[name := circuit_breaker]> (circuit_breakers self))
      (rate_limiters self) (bulkheads self) (timeout_manager self),
   mkStore (cb_objs st ++ [CircuitBreaker.init name config])
           (rl_objs st) (bh_objs st)).

Definition create_rate_limiter (self : t) (name : string)
    (max_requests : Z) (time_window : Q) (st : Store)
    : nat * t * Store :=
  let rate_limiter := length (rl_objs st) in
  (rate_limiter,
   mk (circuit_breakers self)
      (<[name := rate_limiter]> (rate_limiters self))
      (bulkheads self) (timeout_manager self),
   mkStore (cb_objs st)
           (rl_objs st ++ [RateLimiter.init max_requests time_window])
           (bh_objs st)).

Definition create_bulkhead (self : t) (name : string)
    (max_concurrent : Z) (st : Store)
    : Outcome nat * t * Store :=
  match Bulkhead.init name max_concurrent with
  | Raise e => (Raise e, self, st)
  | Ok b =>
      let bulkhead := length (bh_objs st) in
      (Ok bulkhead,
       mk (circuit_breakers self) (rate_limiters self)
          (<[name := bulkhead]> (bulkheads self)) (timeout_manager self),
       mkStore (cb_objs st) (rl_objs st) (bh_objs st ++ [b]))
  end.

Definition get_circuit_breaker (self : t) (name : string) : option nat :=
  circuit_breakers self !! name.

Definition get_rate_limiter (self : t) (name : string) : option nat :=
  rate_limiters self !! name.

Definition get_bulkhead (self : t) (name : string) : option nat :=
  bulkheads self !! name.

(** [if name:] holds for a name that is neither [None] nor empty. *)
Definition given (name : option string) : option string :=
  match name with
  | Some s => if decide (s = ""%string) then None else Some s
  | None => None
  end.

Section Execute.
Context {S R : Type}.
Variable str_float : Q -> string.

(** A run of the entry point ends in an outcome, or has none: [None]
    when the task stays suspended (no free bulkhead permit, no rate
    limit permit within the fuel) or an address is not in the store. *)
Definition Run : Type := option (Outcome R * Store * World S R).

Definition _execute_with_circuit_breaker_and_retry (self : t)
    (func : Op S R) (circuit_breaker_name : option string)
    (timeout : option Q)
    (retry_config : option RetryManager.RetryConfig)
    (st : Store) (w : World S R) : Run :=
  match given circuit_breaker_name ≫= get_circuit_breaker self with
  | Some circuit_breaker =>
      match cb_objs st !! circuit_breaker with
      | Some cb =>
          let '(o, cb', w') := CircuitBreaker.call cb func w in
          Some (o,
                mkStore (<[circuit_breaker := cb']> (cb_objs st))
                        (rl_objs st) (bh_objs st),
                w')
      | None => None
      end
  | None =>
      let '(o, w') :=
        match retry_config with
        | Some rc =>
            RetryManager.execute_with_retry rc
              (Ok "execute_with_timeout"%string)
              (TimeoutManager.execute_with_timeout str_float
                 (timeout_manager self) func timeout)
              None w
        | None =>
            TimeoutManager.execute_with_timeout str_float
              (timeout_manager self) func timeout w
        end in
      Some (o, st, w')
  end.

(** The rate limiting step. *)
Definition apply_rate_limit (fuel : nat) (self : t)
    (rate_limiter_name : option string) (st : Store) (w : World S R)
    : option (Store * World S R) :=
  match given rate_limiter_name ≫= get_rate_limiter self with
  | Some rate_limiter =>
      match rl_objs st !! rate_limiter with
      | Some rl =>
          match RateLimiter.wait_for_permit fuel rl w with
          | Some (rl', w') =>
              Some (mkStore (cb_objs st)
                            (<[rate_limiter := rl']> (rl_objs st))
                            (bh_objs st), w')
          | None => None
          end
      | None => None
      end
  | None => Some (st, w)
  end.

Definition execute_with_resilience (fuel : nat) (self : t)
    (func : Op S R)
    (circuit_breaker_name rate_limiter_name bulkhead_name : option string)
    (timeout : option Q)
    (retry_config : option RetryManager.RetryConfig)
    (st : Store) (w : World S R) : Run :=
  match apply_rate_limit fuel self rate_limiter_name st w with
  | None => None
  | Some (st1, w1) =>
      match given bulkhead_name ≫= get_bulkhead self with
      | Some bulkhead =>
          match bh_objs st1 !! bulkhead ≫= Bulkhead.acquire with
          | Some bh =>
              let st2 := mkStore (cb_objs st1) (rl_objs st1)
                                 (<[bulkhead := bh]> (bh_objs st1)) in
              match _execute_with_circuit_breaker_and_retry self func
                      circuit_breaker_name timeout retry_config st2 w1 with
              | Some (o, st3, w3) =>
                  Some (o,
                        mkStore (cb_objs st3) (rl_objs st3)
                                (alter Bulkhead.release bulkhead
                                       (bh_objs st3)),
                        w3)
              | None => None
              end
          | None => None
          end
      | None =>
          _execute_with_circuit_breaker_and_retry self func
            circuit_breaker_name timeout retry_config st1 w1
      end
  end.

End Execute.
(** The entry of [get_statistics] for a rate limiter. *)
Record RateLimiterStats : Type := mkRateLimiterStats {
  stats_max_requests : Z;
  stats_time_window : Q;
  stats_current_requests : Z
}.

Record Statistics : Type := mkStatistics {
  stats_circuit_breakers : gmap string CircuitBreaker.CircuitBreakerStats;
  stats_rate_limiters : gmap string RateLimiterStats;
  stats_bulkheads : gmap string Bulkhead.Stats
}.

(** [get_statistics]: one entry per registered name, read from the
    object the name is bound to. *)
Definition get_statistics (self : t) (st : Store) : Statistics :=
  mkStatistics
    (omap (fun cb => CircuitBreaker.get_stats <$> cb_objs st !! cb)
          (circuit_breakers self))
    (omap (fun rl =>
             (fun o => mkRateLimiterStats
                         (RateLimiter.max_requests o)
                         (RateLimiter.time_window o)
                         (Z.of_nat (length (RateLimiter.requests o))))
             <$> rl_objs st !! rl)
          (rate_limiters self))
    (omap (fun bh => Bulkhead.get_stats <$> bh_objs st !! bh)
          (bulkheads self)).

End ResilienceManager.

(** * Scenarios

    The vocabulary of the properties: operations that always fail, runs
    of several calls, the history of granted instants, and the concrete
    operations and objects of the examples. *)

Section RetryScenario.
Context {S R : Type}.
Implicit Types (func : Op S R).

(** The operation fails at every invocation with an exception that the
    [except] clause catches. *)
Definition always_fails func (deadline : option Q)
    (exceptions : list ExcClass) : Prop :=
  forall e0 : Env S,
    exists e e1,
      run func deadline e0 = (Raise e, e1) /\ caught_by e exceptions = true.

(** The delays of the [asyncio.sleep] calls recorded in a trace. *)
Fixpoint sleeps (tr : list (Event R)) : list Q :=
  match tr with
  | [] => []
  | EvCall _ :: tr' => sleeps tr'
  | EvSleep d :: tr' => d :: sleeps tr'
  end.

(** Every value of [random.random()] still to come lies in [0, 1]. *)
Definition rng_in_unit (w : World S R) : Prop :=
  forall n, (0 <= rng (env w) n)%Q /\ (rng (env w) n <= 1)%Q.

(** [func] makes one invocation each time it runs, and [P] relates the
    recorded outcome to the outcome of [func]. *)
Definition one_call {A : Type} (func : M S R A)
    (P : Outcome R -> Outcome A -> Prop) : Prop :=
  forall w, exists oc,
    trace (snd (func w)) = trace w ++ [EvCall oc] /\ P oc (fst (func w)).

(** The power of the exponential strategy stays in the float range at
    this attempt (the other strategies compute no power). *)
Definition delay_computable (config : RetryManager.RetryConfig)
    (attempt : Z) : Prop :=
  RetryManager.strategy config = RetryManager.EXPONENTIAL ->
  overflows (RetryManager.backoff_multiplier config ^ (attempt - 1)) = false.

End RetryScenario.

Section BreakerScenario.
Import CircuitBreaker.
Context {S R : Type}.
Implicit Types (self : CircuitBreaker.t) (w : World S R) (func : Op S R).

(** The deadline under which [call] awaits the operation. *)
Definition call_deadline self func : option Q :=
  if is_coroutine func then Some (timeout (config self)) else None.

(** The operation fails, whenever it is invoked, with an [Exception]. *)
Definition op_fails func : Prop :=
  forall (deadline : option Q) (e0 : Env S),
    exists e e1,
      run func deadline e0 = (Raise e, e1) /\ isinstance e Exception = true.

(** One call after the other, each in the world the previous one left. *)
Fixpoint call_each self (funcs : list (Op S R)) w
    : list (Outcome R) * CircuitBreaker.t * World S R :=
  match funcs with
  | [] => ([], self, w)
  | func :: rest =>
      let '(o, self1, w1) := call self func w in
      let '(os, self2, w2) := call_each self1 rest w1 in
      (o :: os, self2, w2)
  end.


(** The operation returns, whenever it is invoked. *)
Definition op_succeeds func : Prop :=
  forall (deadline : option Q) (e0 : Env S),
    exists r e1, run func deadline e0 = (Ok r, e1).

(** What holds of a breaker from its construction on: the counters add
    up, an open breaker has a failure time, the success count is used in
    the half-open state only, and a count that has reached its threshold
    has already made its transition. *)
Definition consistent self : Prop :=
  total_requests self = total_failures self + total_successes self /\
  (state self = OPEN -> last_failure_time self <> None) /\
  (state self <> HALF_OPEN -> success_count self = 0) /\
  0 <= failure_count self /\
  0 <= success_count self /\
  (state self = CLOSED ->
   failure_count self < Z.max 1 (failure_threshold (config self))) /\
  (state self = HALF_OPEN ->
   success_count self < Z.max 1 (success_threshold (config self))).

End BreakerScenario.

Section LimiterScenario.
Import RateLimiter.
Implicit Types (self : RateLimiter.t) (l : list Q) (c : Q).

(** The instants of a list that are later than [c]. *)
Definition later_than c l : list Q :=
  List.filter (fun g => negb (Qle_bool g c)) l.

(** [acquire] at each instant of [ts] in turn. *)
Fixpoint acquire_each self (ts : list Q) : list bool * RateLimiter.t :=
  match ts with
  | [] => ([], self)
  | t_now :: rest =>
      let '(b, self1) := acquire_at self t_now in
      let '(bs, self2) := acquire_each self1 rest in
      (b :: bs, self2)
  end.

(** The instants at which a permit was granted. *)
Fixpoint granted (ts : list Q) (bs : list bool) : list Q :=
  match ts, bs with
  | t_now :: ts', b :: bs' =>
      if b then t_now :: granted ts' bs' else granted ts' bs'
  | _, _ => []
  end.

(** What ties the deque to the history [G] of granted instants, [T]
    being the instant of the last call: the deque is in time order, holds
    nothing later than [T], and holds every granted instant still in the
    window. *)
Definition tracks self (G : list Q) (T : Q) : Prop :=
  StronglySorted Qle (requests self) /\
  Forall (fun r => (r <= T)%Q) (requests self) /\
  forall c, (T - time_window self <= c)%Q ->
    later_than c G = later_than c (requests self).

End LimiterScenario.

(** [k] entries into the bulkhead with no exit in between. *)
Fixpoint acquire_times (k : nat) (self : Bulkhead.t) : option Bulkhead.t :=
  match k with
  | O => Some self
  | Datatypes.S k' => Bulkhead.acquire self ≫= acquire_times k'
  end.

Module Fixtures.
Import CircuitBreaker.

(** The operations work on a counter of their own invocations. *)
Definition tick (e : Env nat) : Env nat :=
  mkEnv (clock e) (rng e) (Datatypes.S (user e)).

Definition world_at (t_now : Q) : World nat Z :=
  mkWorld (mkEnv t_now (fun _ => (1 # 2)%Q) O) [].

Definition value_error : Exn := mkExn (UserError "ValueError") "boom".

Definition connection_error : Exn :=
  mkExn (UserError "ConnectionError") "connection refused".

(** Always raises [ValueError("boom")]. *)
Definition failing_op : Op nat Z :=
  mkOp (Ok "fetch"%string) true (fun _ e => (Raise value_error, tick e)).

(** Raises [ConnectionError] at its first invocation and returns 42 from
    the second on. *)
Definition flaky_op : Op nat Z :=
  mkOp (Ok "fetch"%string) true
       (fun _ e =>
          (match user e with
           | O => Raise connection_error
           | Datatypes.S _ => Ok 42
           end, tick e)).

(** A breaker that opened at instant 100, with the default
    configuration (recovery timeout 60). *)
Definition open_breaker : CircuitBreaker.t :=
  mk "api" default_config OPEN 5 0 (Some 100%Q) None 5 5 0.

Definition exponential_config : RetryManager.RetryConfig :=
  RetryManager.mkRetryConfig 3 1 60 RetryManager.EXPONENTIAL true 2.

(** [functools.partial(f)] for an [f] that always raises
    [ValueError("boom")]: a callable with no [__name__]. *)
Definition partial_op : Op nat Z :=
  mkOp (Raise (mkExn AttributeError
                 "'functools.partial' object has no attribute '__name__'"))
       false (fun _ e => (Raise value_error, tick e)).

(** The default configuration with room for 1026 attempts. *)
Definition long_config : RetryManager.RetryConfig :=
  RetryManager.mkRetryConfig 1026 1 60 RetryManager.EXPONENTIAL true 2.

(** Returns 7. *)
Definition ok_op : Op nat Z :=
  mkOp (Ok "ping"%string) true (fun _ e => (Ok 7, tick e)).

(** Runs into its deadline. *)
Definition timeout_op : Op nat Z :=
  mkOp (Ok "slow"%string) true
       (fun _ e => (Raise (mkExn AsyncioTimeoutError ""), tick e)).

(** Is cancelled. *)
Definition cancelled_op : Op nat Z :=
  mkOp (Ok "task"%string) true (fun _ e => (Raise (mkExn CancelledError ""), tick e)).

Definition small_config : CircuitBreakerConfig := mkConfig 3 60 2 30.

(** A breaker on probation after three failures. *)
Definition half_open_breaker : CircuitBreaker.t :=
  mk "api" small_config HALF_OPEN 3 0 (Some 100%Q) None 3 3 0.

Definition random_config : RetryManager.RetryConfig :=
  RetryManager.mkRetryConfig 3 1 60 RetryManager.RANDOM true 2.

Definition linear_config : RetryManager.RetryConfig :=
  RetryManager.mkRetryConfig 3 1 60 RetryManager.LINEAR false 2.

Definition no_attempts_config : RetryManager.RetryConfig :=
  RetryManager.mkRetryConfig 0 1 60 RetryManager.FIXED false 2.

(** A manager with the bulkhead "pool" of two permits. *)
Definition pool_manager : ResilienceManager.t :=
  ResilienceManager.mk ∅ ∅ {[ "pool"%string := O ]} TimeoutManager.init.

Definition pool_store : ResilienceManager.Store :=
  ResilienceManager.mkStore [] [] [Bulkhead.mk "pool" 2 2 0].

(** A manager with the rate limiter "none" that allows no request. *)
Definition blocked_manager : ResilienceManager.t :=
  ResilienceManager.mk ∅ {[ "none"%string := O ]} ∅ TimeoutManager.init.

Definition blocked_store : ResilienceManager.Store :=
  ResilienceManager.mkStore [] [RateLimiter.mk 0 10 []] [].

End Fixtures.

(** * Properties *)

(** ** Retry delays *)

Section RetryDelay.
Import RetryManager.
Context {S R : Type}.
Implicit Types (config : RetryConfig) (w : World S R).

Lemma py_min_le_r (a b : Q) : (py_min a b <= b)%Q.
Proof. unfold py_min. destruct (Qlt_le_dec b a); lra. Qed.

Lemma overflows_false (x : Q) :
  overflows x = false <-> (Qabs x < float_overflow)%Q.
Proof.
  unfold overflows. split.
  - intros E. apply not_true_iff_false in E. rewrite Qle_bool_iff in E. lra.
  - intros Hlt. apply not_true_iff_false. rewrite Qle_bool_iff. lra.
Qed.

Lemma strategy_delay_exponential config attempt w :
  strategy config = EXPONENTIAL ->
  overflows (backoff_multiplier config ^ (attempt - 1)) = false ->
  strategy_delay config attempt w =
    (Ok (base_delay config * backoff_multiplier config ^ (attempt - 1))%Q, w).
Proof.
  intros Hs Ho. unfold strategy_delay, bind, pure, ret, float_pow.
  now rewrite Hs, Ho.
Qed.

Lemma strategy_delay_overflow config attempt w :
  strategy config = EXPONENTIAL ->
  overflows (backoff_multiplier config ^ (attempt - 1)) = true ->
  strategy_delay config attempt w = (Raise overflow_error, w).
Proof.
  intros Hs Ho. unfold strategy_delay, bind, pure, ret, float_pow.
  now rewrite Hs, Ho.
Qed.

(** The strategy yields a delay, except for the overflow of the
    exponential one. *)
Lemma strategy_delay_outcome config attempt w :
  (exists d w', strategy_delay config attempt w = (Ok d, w') /\
                trace w' = trace w) \/
  (strategy config = EXPONENTIAL /\
   overflows (backoff_multiplier config ^ (attempt - 1)) = true /\
   strategy_delay config attempt w = (Raise overflow_error, w)).
Proof.
  destruct (strategy config) eqn:Hs.
  - left. unfold strategy_delay. rewrite Hs. unfold ret. eauto.
  - destruct (overflows (backoff_multiplier config ^ (attempt - 1))) eqn:Ho.
    + right. auto using strategy_delay_overflow.
    + left. rewrite strategy_delay_exponential by assumption. eauto.
  - left. unfold strategy_delay. rewrite Hs. unfold ret. eauto.
  - left. unfold strategy_delay. rewrite Hs.
    unfold uniform, bind, random, ret. eauto.
Qed.

Lemma strategy_delay_returns config attempt w :
  delay_computable config attempt ->
  exists d w', strategy_delay config attempt w = (Ok d, w') /\
               trace w' = trace w.
Proof.
  intros Hc.
  destruct (strategy_delay_outcome config attempt w)
    as [H | (Hs & Ho & _)]; [exact H |].
  rewrite (Hc Hs) in Ho. discriminate.
Qed.

Lemma apply_jitter_returns config d w :
  exists d' w', apply_jitter config d w = (Ok d', w') /\ trace w' = trace w.
Proof.
  unfold apply_jitter, uniform, bind, random, ret.
  destruct (jitter config); eauto.
Qed.

(** Past the first test, [calculate_delay] returns a clamped delay or
    passes the overflow on. *)
Lemma calculate_delay_outcome config attempt w :
  1 <= attempt ->
  (exists d w', calculate_delay config attempt w = (Ok d, w') /\
                trace w' = trace w /\ (d <= max_delay config)%Q) \/
  (strategy config = EXPONENTIAL /\
   overflows (backoff_multiplier config ^ (attempt - 1)) = true /\
   calculate_delay config attempt w = (Raise overflow_error, w)).
Proof.
  intros Ha. unfold calculate_delay.
  destruct (Z.leb_spec attempt 0) as [Hle | _]; [lia |].
  destruct (strategy_delay_outcome config attempt w)
    as [(d1 & w1 & E1 & T1) | (Hs & Ho & E)].
  - left. destruct (apply_jitter_returns config d1 w1) as (d2 & w2 & E2 & T2).
    exists (py_min d2 (max_delay config)), w2. split; [| split].
    + unfold bind at 1. rewrite E1. unfold bind at 1. rewrite E2.
      reflexivity.
    + congruence.
    + apply py_min_le_r.
  - right. repeat split; try assumption.
    unfold bind at 1. now rewrite E.
Qed.


(** With a multiplier of at least 1 the powers grow with the attempt, so
    a power in the float range has all earlier ones in it. *)
Lemma overflows_earlier (b : Q) (n1 n2 : Z) :
  (1 <= b)%Q -> 0 <= n1 -> n1 <= n2 ->
  overflows (b ^ n2) = false -> overflows (b ^ n1) = false.
Proof.
  intros Hb H0 H12. rewrite !overflows_false.
  assert (Hp1 : (0 <= b ^ n1)%Q) by (apply Qpower_0_le; lra).
  assert (Hp2 : (0 <= b ^ n2)%Q) by (apply Qpower_0_le; lra).
  rewrite !Qabs_pos by assumption.
  pose proof (Qpower_le_compat_l b n1 n2 H12 Hb). lra.
Qed.


(** C10.  For an attempt number that is not positive, [calculate_delay]
    returns 0 whatever the configuration: no strategy is applied, no
    random number is drawn and the result is not clamped, so the
    environment is left as it was. *)
Theorem calculate_delay_nonpositive_attempt config attempt w :
  attempt <= 0 ->
  calculate_delay config attempt w = (Ok 0%Q, w).
Proof.
  intros Ha. unfold calculate_delay.
  destruct (Z.leb_spec attempt 0) as [_ | Hgt]; [reflexivity | lia].
Qed.

End RetryDelay.

(** ** The retry loop: ranges and traces *)

Section RetryExhaustion.
Import RetryManager.
Context {S R : Type}.
Implicit Types (config : RetryConfig) (w : World S R) (func : Op S R).

Lemma range_nil lo hi : hi <= lo -> range lo hi = [].
Proof.
  intros H. unfold range. replace (Z.to_nat (hi - lo)) with O by lia.
  reflexivity.
Qed.

Lemma range_cons lo hi : lo < hi -> range lo hi = lo :: range (lo + 1) hi.
Proof.
  intros H. unfold range.
  replace (Z.to_nat (hi - lo)) with (Datatypes.S (Z.to_nat (hi - (lo + 1))))
    by lia.
  cbn [seq map]. f_equal; [lia |].
  rewrite <- seq_shift, map_map. apply map_ext. intros i. lia.
Qed.


Lemma invoke_trace func deadline w o w' :
  invoke func deadline w = (o, w') ->
  run func deadline (env w) = (o, env w') /\
  trace w' = trace w ++ [EvCall o].
Proof.
  unfold invoke. destruct (run func deadline (env w)) as [o1 e1].
  intros [= <- <-]. split; reflexivity.
Qed.

End RetryExhaustion.

(** ** The circuit breaker *)

Section Breaker.
Import CircuitBreaker.
Context {S R : Type}.
Implicit Types (self : CircuitBreaker.t) (w : World S R) (func : Op S R).

Lemma admission_not_open self t_now :
  state self <> OPEN -> admission self t_now = Some self.
Proof. intros H. unfold admission. now destruct (decide (state self = OPEN)). Qed.

Lemma isinstance_timeout_exception (e : Exn) :
  isinstance e AsyncioTimeoutError = true -> isinstance e Exception = true.
Proof.
  destruct e as [c m]. unfold isinstance, issubclass. cbn [exc_class].
  destruct c; vm_compute; congruence.
Qed.

(** What [execute] does with an operation that raises an [Exception]. *)
Lemma execute_failure self func w e e1 :
  run func (call_deadline self func) (env w) = (Raise e, e1) ->
  isinstance e Exception = true ->
  exists e',
    execute self func w =
      (Raise e', _record_failure self (clock e1),
       mkWorld e1 (trace w ++ [EvCall (Raise e)])) /\
    e' = (if isinstance e AsyncioTimeoutError
          then timeout_error self else failure_error self e).
Proof.
  intros Hr He. unfold execute, invoke. fold (call_deadline self func).
  rewrite Hr. destruct (isinstance e AsyncioTimeoutError) eqn:Et.
  - eexists. split; reflexivity.
  - rewrite He. eexists. split; reflexivity.
Qed.

Lemma execute_success self func w r e1 :
  run func (call_deadline self func) (env w) = (Ok r, e1) ->
  execute self func w =
    (Ok r, _record_success self (clock e1),
     mkWorld e1 (trace w ++ [EvCall (Ok r)])).
Proof.
  intros Hr. unfold execute, invoke. fold (call_deadline self func).
  now rewrite Hr.
Qed.

(** A call refused because the breaker is open changes nothing. *)
Lemma call_refused self func w t0 :
  state self = OPEN ->
  last_failure_time self = Some t0 ->
  (clock (env w) - t0 < recovery_timeout (config self))%Q ->
  call self func w = (Raise (open_error self), self, w).
Proof.
  intros Hs Hl Ht. unfold call, admission, _should_attempt_reset.
  rewrite Hs, Hl. cbn.
  destruct (Qle_bool _ _) eqn:E; [| reflexivity].
  apply Qle_bool_iff in E. lra.
Qed.





Lemma admission_recovering self t_now t0 :
  state self = OPEN ->
  last_failure_time self = Some t0 ->
  (t0 + recovery_timeout (config self) <= t_now)%Q ->
  admission self t_now =
    Some (mk (name self) (config self) HALF_OPEN (failure_count self) 0
             (last_failure_time self) (last_success_time self)
             (total_requests self) (total_failures self)
             (total_successes self)).
Proof.
  intros Hs Hl Ht. unfold admission, _should_attempt_reset. rewrite Hs, Hl.
  destruct (decide (OPEN = OPEN)); [| congruence].
  destruct (decide (OPEN <> OPEN)); [congruence |].
  replace (Qle_bool _ _) with true
    by (symmetry; apply Qle_bool_iff; lra).
  reflexivity.
Qed.

(** [execute] invokes the operation, once. *)
Lemma execute_invokes self func w :
  exists o, trace (snd (execute self func w)) = trace w ++ [EvCall o].
Proof.
  unfold execute, invoke.
  destruct (run func _ (env w)) as [[r | e] e1]; cbn; [eauto |].
  destruct (isinstance e AsyncioTimeoutError); [cbn; eauto |].
  destruct (isinstance e Exception); cbn; eauto.
Qed.

(** C6.  A breaker open since [t0], its last failure time: a call made
    before [t0 + recovery_timeout] raises the circuit-open error and
    changes nothing, so that the breaker is still open since [t0] for the
    next call; a call made at or after [t0 + recovery_timeout] is
    admitted, and the operation runs on a half-open breaker whose
    success count is 0. *)
Theorem open_breaker_recovery self func w t0 :
  state self = OPEN ->
  last_failure_time self = Some t0 ->
  ((clock (env w) < t0 + recovery_timeout (config self))%Q ->
     call self func w = (Raise (open_error self), self, w)) /\
  ((t0 + recovery_timeout (config self) <= clock (env w))%Q ->
     exists self1,
       admission self (clock (env w)) = Some self1 /\
       state self1 = HALF_OPEN /\
       success_count self1 = 0 /\
       call self func w = execute self1 func w /\
       exists o, trace (snd (call self func w)) = trace w ++ [EvCall o]).
Proof.
  intros Hs Hl. split.
  - intros Ht. apply call_refused with (t0 := t0); [assumption .. |]. lra.
  - intros Ht. unfold call.
    rewrite (admission_recovering self _ t0 Hs Hl Ht).
    eexists. split; [reflexivity |]. repeat split.
    apply execute_invokes.
Qed.

Lemma admission_preserves self t_now self1 :
  admission self t_now = Some self1 ->
  name self1 = name self /\ config self1 = config self /\
  total_requests self1 = total_requests self /\
  total_failures self1 = total_failures self /\
  total_successes self1 = total_successes self /\
  state self1 <> OPEN.
Proof.
  unfold admission. destruct (decide (state self = OPEN)) as [Ho | Hn].
  - destruct (negb _); [discriminate |]. intros [= <-]. cbn.
    repeat split; discriminate.
  - intros [= <-]. repeat split. assumption.
Qed.

Lemma record_success_counters self t_now :
  total_requests (_record_success self t_now) = total_requests self + 1 /\
  total_successes (_record_success self t_now) = total_successes self + 1 /\
  total_failures (_record_success self t_now) = total_failures self.
Proof.
  unfold _record_success.
  destruct (decide (state self = HALF_OPEN));
    [destruct (_ <=? _) |]; cbn; repeat split.
Qed.

Lemma record_failure_counters self t_now :
  total_requests (_record_failure self t_now) = total_requests self + 1 /\
  total_failures (_record_failure self t_now) = total_failures self + 1 /\
  total_successes (_record_failure self t_now) = total_successes self.
Proof.
  unfold _record_failure.
  destruct (decide (state self = HALF_OPEN)); cbn; repeat split.
Qed.

(** C5, as the code has it.  A call that the open breaker refuses
    changes no counter.  A call that is admitted and whose operation
    returns adds 1 to [total_requests] and to [total_successes] and
    leaves [total_failures]; one whose operation raises an [Exception]
    adds 1 to [total_requests] and to [total_failures] and leaves
    [total_successes]. *)
Theorem call_counts_admitted_calls_only self func w :
  let '(o, self', w') := call self func w in
  match admission self (clock (env w)) with
  | None =>
      o = Raise (open_error self) /\ w' = w /\
      total_requests self' = total_requests self /\
      total_failures self' = total_failures self /\
      total_successes self' = total_successes self
  | Some _ =>
      match fst (run func (call_deadline self func) (env w)) with
      | Ok _ =>
          total_requests self' = total_requests self + 1 /\
          total_successes self' = total_successes self + 1 /\
          total_failures self' = total_failures self
      | Raise e =>
          if isinstance e Exception then
            total_requests self' = total_requests self + 1 /\
            total_failures self' = total_failures self + 1 /\
            total_successes self' = total_successes self
          else True
      end
  end.
Proof.
  unfold call.
  destruct (admission self (clock (env w))) as [self1 |] eqn:Ea;
    [| repeat split].
  destruct (admission_preserves _ _ _ Ea) as (_ & Hc & Hr & Hf & Hs & _).
  assert (Hd : call_deadline self1 func = call_deadline self func)
    by (unfold call_deadline; now rewrite Hc).
  rewrite <- Hd.
  destruct (run func (call_deadline self1 func) (env w)) as [[r | e] e1] eqn:Er.
  - rewrite (execute_success _ _ _ _ _ Er). cbn [fst].
    destruct (record_success_counters self1 (clock e1)) as (-> & -> & ->).
    rewrite Hr, Hf, Hs. repeat split.
  - cbn [fst]. destruct (isinstance e Exception) eqn:He.
    + destruct (execute_failure _ _ _ _ _ Er He) as (e' & -> & _).
      destruct (record_failure_counters self1 (clock e1)) as (-> & -> & ->).
      rewrite Hr, Hf, Hs. repeat split.
    + destruct (execute self1 func w) as [[o self'] w']. exact I.
Qed.

(** C3, as the code has it.  When an admitted call's operation raises
    an [Exception] of its own (not [asyncio.TimeoutError]), the caller
    receives a [CircuitBreakerException] whose message is
    "Circuit breaker <name> failure: <str(e)>": the class of the
    operation's exception is not passed on.  Its class is neither that of
    the circuit-open error nor that of the timeout error; both of these
    are subclasses of it. *)
Theorem call_wraps_operation_error self func w self1 e e1 :
  admission self (clock (env w)) = Some self1 ->
  run func (call_deadline self func) (env w) = (Raise e, e1) ->
  isinstance e Exception = true ->
  isinstance e AsyncioTimeoutError = false ->
  fst (fst (call self func w)) =
    Raise (mkExn CircuitBreakerException
                 ("Circuit breaker " ++ name self ++ " failure: " ++ exc_msg e))
  /\ CircuitBreakerException <> exc_class (open_error self)
  /\ CircuitBreakerException <> exc_class (timeout_error self)
  /\ isinstance (open_error self) CircuitBreakerException = true
  /\ isinstance (timeout_error self) CircuitBreakerException = true.
Proof.
  intros Ea Er He Ht. split; [| repeat split; discriminate].
  unfold call. rewrite Ea.
  destruct (admission_preserves _ _ _ Ea) as (Hn & Hc & _).
  assert (Hd : call_deadline self1 func = call_deadline self func)
    by (unfold call_deadline; now rewrite Hc).
  rewrite <- Hd in Er.
  destruct (execute_failure _ _ _ _ _ Er He) as (e' & -> & ->).
  rewrite Ht. cbn. unfold failure_error. now rewrite Hn.
Qed.

End Breaker.

(** ** The rate limiter *)

Section Limiter.
Import RateLimiter.
Implicit Types (self : RateLimiter.t) (l : list Q) (c : Q).

Ltac qle_cases :=
  repeat match goal with
  | |- context [Qle_bool ?a ?b] =>
      let E := fresh "E" in
      destruct (Qle_bool a b) eqn:E;
      [apply Qle_bool_iff in E
      | apply not_true_iff_false in E; rewrite Qle_bool_iff in E]
  | H : context [Qle_bool ?a ?b] |- _ =>
      let E := fresh "E" in
      destruct (Qle_bool a b) eqn:E;
      [apply Qle_bool_iff in E
      | apply not_true_iff_false in E; rewrite Qle_bool_iff in E]
  end.

Lemma later_than_app c l1 l2 :
  later_than c (l1 ++ l2) = later_than c l1 ++ later_than c l2.
Proof. apply List.filter_app. Qed.

Lemma later_than_all c l :
  Forall (fun g => (c < g)%Q) l -> later_than c l = l.
Proof.
  unfold later_than. induction 1 as [| g l Hg _ IH]; [reflexivity |].
  cbn. qle_cases; [lra |]. cbn. now rewrite IH.
Qed.

Lemma later_than_idem c1 c2 l :
  (c1 <= c2)%Q -> later_than c2 (later_than c1 l) = later_than c2 l.
Proof.
  intros Hc. unfold later_than. induction l as [| g l IH]; [reflexivity |].
  cbn. destruct (Qle_bool g c1) eqn:E1; cbn.
  - rewrite IH. apply Qle_bool_iff in E1.
    qle_cases; [reflexivity | lra].
  - now rewrite IH.
Qed.

Lemma later_than_length c l : (length (later_than c l) <= length l)%nat.
Proof. apply List.filter_length_le. Qed.

Lemma later_than_Forall (P : Q -> Prop) c l :
  Forall P l -> Forall P (later_than c l).
Proof.
  unfold later_than. induction 1 as [| g l Hg _ IH]; [constructor |].
  cbn. destruct (negb _); [constructor |]; assumption.
Qed.

Lemma later_than_sorted c l :
  StronglySorted Qle l -> StronglySorted Qle (later_than c l).
Proof.
  induction 1 as [| g l Hs IH Hall]; [constructor |].
  unfold later_than. cbn. destruct (negb _); [| assumption].
  constructor; [assumption |]. now apply later_than_Forall.
Qed.

(** On a deque in time order, the loop of [acquire] keeps exactly the
    instants later than the cutoff. *)
Lemma remove_old_sorted c l :
  StronglySorted Qle l -> remove_old l c = later_than c l.
Proof.
  induction 1 as [| g l Hs IH Hall]; [reflexivity |].
  unfold later_than.
  cbn. destruct (Qle_bool g c) eqn:E; cbn; [assumption |].
  apply not_true_iff_false in E. rewrite Qle_bool_iff in E.
  f_equal. symmetry. apply later_than_all.
  eapply Forall_impl; [exact Hall |]. cbn. intros a Ha. lra.
Qed.

Lemma sorted_snoc l x :
  StronglySorted Qle l -> Forall (fun r => (r <= x)%Q) l ->
  StronglySorted Qle (l ++ [x]).
Proof.
  induction 1 as [| g l Hs IH Hall]; intros Hx.
  - repeat constructor.
  - inversion Hx as [| ? ? Hgx Hlx]; subst. cbn. constructor.
    + now apply IH.
    + apply Forall_app. split; [assumption |]. now repeat constructor.
Qed.

Lemma last_cons_default (x d : Q) l :
  List.last (x :: l) d = List.last l x.
Proof.
  revert x d. induction l as [| y l IH]; intros x d; [reflexivity |].
  change (List.last (x :: y :: l) d) with (List.last (y :: l) d).
  now rewrite (IH y d), (IH y x).
Qed.

Lemma acquire_at_tracks self G T t_now :
  tracks self G T ->
  (T <= t_now)%Q ->
  let '(b, self') := acquire_at self t_now in
  max_requests self' = max_requests self /\
  time_window self' = time_window self /\
  tracks self' (if b then G ++ [t_now] else G) t_now /\
  (b = true ->
   Z.of_nat (length (later_than (t_now - time_window self) (G ++ [t_now])))
     <= max_requests self).
Proof.
  intros (Hs & Hle & Hg) HT. unfold acquire_at.
  rewrite (remove_old_sorted _ _ Hs).
  set (c0 := (t_now - time_window self)%Q).
  assert (Hle' : Forall (fun r => (r <= t_now)%Q) (later_than c0 (requests self))).
  { apply later_than_Forall. eapply Forall_impl; [exact Hle |].
    cbn. intros a Ha. lra. }
  destruct (Z.ltb_spec (Z.of_nat (length (later_than c0 (requests self))))
              (max_requests self)) as [Hlt | Hge].
  - cbn [max_requests time_window requests].
    assert (Htr : tracks
              (mk (max_requests self) (time_window self)
                  (later_than c0 (requests self) ++ [t_now]))
              (G ++ [t_now]) t_now).
    { repeat split; cbn [requests time_window].
      - apply sorted_snoc; [now apply later_than_sorted | assumption].
      - apply Forall_app. split; [assumption |]. repeat constructor. lra.
      - intros c Hc. rewrite !later_than_app. f_equal.
        rewrite later_than_idem by exact Hc. apply Hg. lra. }
    repeat split; try apply Htr.
    intros _. destruct Htr as (_ & _ & Hg').
    rewrite (Hg' c0) by (cbn; unfold c0; lra). cbn [requests].
    pose proof (later_than_length c0
                  (later_than c0 (requests self) ++ [t_now])) as Hl.
    rewrite length_app in Hl. cbn [length] in Hl. lia.
  - cbn [max_requests time_window requests]. repeat split.
    + now apply later_than_sorted.
    + assumption.
    + intros c Hc. cbn [requests time_window] in *.
      rewrite later_than_idem by exact Hc. apply Hg. lra.
    + discriminate.
Qed.

Lemma acquire_each_tracks (ts : list Q) :
  forall self G T,
    tracks self G T ->
    StronglySorted Qle (T :: ts) ->
    let '(bs, self') := acquire_each self ts in
    max_requests self' = max_requests self /\
    time_window self' = time_window self /\
    tracks self' (G ++ granted ts bs) (List.last ts T).
Proof.
  induction ts as [| t_now rest IH]; intros self G T Ht Hs.
  - cbn. rewrite app_nil_r. auto.
  - cbn [acquire_each].
    inversion Hs as [| ? ? Hs' Hall]; subst.
    inversion Hall as [| ? ? HTt Hrest]; subst.
    pose proof (acquire_at_tracks self G T t_now Ht HTt) as Hstep.
    destruct (acquire_at self t_now) as [b self1].
    destruct Hstep as (Hm1 & Hw1 & Ht1 & _).
    specialize (IH self1 _ t_now Ht1 Hs').
    destruct (acquire_each self1 rest) as [bs self2].
    destruct IH as (Hm2 & Hw2 & Ht2).
    rewrite last_cons_default.
    repeat split; try congruence.
    + apply Ht2.
    + apply Ht2.
    + destruct Ht2 as (_ & _ & Hg2). intros c Hc.
      rewrite <- Hg2 by exact Hc.
      destruct b; cbn [granted]; [| reflexivity].
      now rewrite <- app_assoc.
Qed.

Lemma sorted_snoc_inv l x :
  StronglySorted Qle (l ++ [x]) ->
  StronglySorted Qle l /\ forall d, (d <= x)%Q -> (List.last l d <= x)%Q.
Proof.
  induction l as [| y l IH]; cbn [app]; intros Hs.
  - split; [constructor | auto].
  - inversion Hs as [| ? ? Hs' Hall]; subst.
    destruct (IH Hs') as [Hl Hlast].
    apply Forall_app in Hall as [Hall Hx].
    split; [now constructor |].
    intros d Hd. rewrite last_cons_default. apply Hlast.
    inversion Hx; subst. assumption.
Qed.

Lemma tracks_init max_requests time_window T :
  tracks (init max_requests time_window) [] T.
Proof. repeat split; constructor. Qed.

(** The sliding-window bound, from a new limiter and on a clock that
    does not go back. *)
Lemma granted_in_window_bounded max_requests time_window ts t_now bs self1
    self2 :
  StronglySorted Qle (ts ++ [t_now]) ->
  acquire_each (init max_requests time_window) ts = (bs, self1) ->
  acquire_at self1 t_now = (true, self2) ->
  Z.of_nat (length (later_than (t_now - time_window)
                               (granted ts bs ++ [t_now])))
    <= max_requests.
Proof.
  intros Hs Hrun Hacq.
  destruct (sorted_snoc_inv _ _ Hs) as [Hts Hlast].
  set (T := List.hd t_now ts).
  assert (HsT : StronglySorted Qle (T :: ts)).
  { unfold T. destruct ts as [| t1 rest]; cbn [List.hd].
    - repeat constructor.
    - constructor; [assumption |].
      inversion Hts; subst. constructor; [lra | assumption]. }
  assert (HT : (T <= t_now)%Q).
  { unfold T. destruct ts as [| t1 rest]; cbn [List.hd]; [lra |].
    cbn [app] in Hs. inversion Hs as [| ? ? _ Hall]; subst.
    apply Forall_app in Hall as [_ Hx]. now inversion Hx. }
  pose proof (acquire_each_tracks ts _ [] T
                (tracks_init max_requests time_window T) HsT) as Hinv.
  rewrite Hrun in Hinv. destruct Hinv as (Hm & Hw & Htr).
  cbn [app] in Htr.
  pose proof (acquire_at_tracks self1 _ _ t_now Htr (Hlast T HT)) as Hstep.
  rewrite Hacq in Hstep. destruct Hstep as (_ & _ & _ & Hb).
  rewrite Hm, Hw in Hb. cbn in Hb. now apply Hb.
Qed.

Lemma remove_old_head_live l c :
  match l with [] => True | r :: _ => (c < r)%Q end ->
  remove_old l c = l.
Proof.
  destruct l as [| r l]; [reflexivity |]. intros Hr. cbn.
  destruct (Qle_bool r c) eqn:E; [| reflexivity].
  apply Qle_bool_iff in E. lra.
Qed.

Lemma remove_old_all_expired l c :
  Forall (fun r => (r <= c)%Q) l -> remove_old l c = [].
Proof.
  induction 1 as [| r l Hr _ IH]; [reflexivity |]. cbn.
  replace (Qle_bool r c) with true by (symmetry; now apply Qle_bool_iff).
  assumption.
Qed.

(** Calls that all fall in one window [t_lo, t_lo + W) are granted as
    long as the deque has room. *)
Lemma acquire_each_in_window max_requests time_window t_lo (ts : list Q) :
  Forall (fun t => (t_lo <= t)%Q /\ (t < t_lo + time_window)%Q) ts ->
  forall pre,
    Forall (fun t => (t_lo <= t)%Q) pre ->
    Z.of_nat (length pre + length ts) <= max_requests ->
    acquire_each (mk max_requests time_window pre) ts =
      (repeat true (length ts), mk max_requests time_window (pre ++ ts)).
Proof.
  induction 1 as [| t_now rest [Hlo Hhi] _ IH]; intros pre Hpre Hlen.
  - cbn. now rewrite app_nil_r.
  - cbn [acquire_each]. unfold acquire_at.
    cbn [requests RateLimiter.max_requests RateLimiter.time_window].
    rewrite remove_old_head_live.
    2:{ destruct pre as [| p pre']; [exact I |].
        inversion Hpre; subst. lra. }
    cbn [length] in Hlen.
    destruct (Z.ltb_spec (Z.of_nat (length pre)) max_requests); [| lia].
    rewrite IH.
    + cbn. now rewrite <- app_assoc.
    + apply Forall_app. split; [assumption |]. now repeat constructor.
    + rewrite length_app. cbn [length]. lia.
Qed.

(** C8.  A limiter for [max_requests] requests per [time_window], on a
    clock that does not go back.  Whenever [acquire] returns true, the
    granted instants later than [now - time_window] (the window is open
    at its old end) number at most [max_requests].  From a limiter that
    holds no instant, [max_requests] calls inside one window
    [t_lo, t_lo + time_window) are all granted, a further call inside
    that window is refused and changes nothing, and, [max_requests]
    being at least 1, a call made when [time_window] has elapsed since
    the last grant is granted. *)
Theorem sliding_window_rate_limit (max_requests : Z) (time_window : Q) :
  (forall ts t_now bs self1 self2,
     StronglySorted Qle (ts ++ [t_now]) ->
     acquire_each (init max_requests time_window) ts = (bs, self1) ->
     acquire_at self1 t_now = (true, self2) ->
     Z.of_nat (length (later_than (t_now - time_window)
                                  (granted ts bs ++ [t_now])))
       <= max_requests) /\
  (forall ts t_lo,
     Z.of_nat (length ts) = max_requests ->
     Forall (fun t => (t_lo <= t)%Q /\ (t < t_lo + time_window)%Q) ts ->
     let self1 := mk max_requests time_window ts in
     acquire_each (init max_requests time_window) ts
       = (repeat true (length ts), self1) /\
     (forall t_next,
        (t_lo <= t_next)%Q -> (t_next < t_lo + time_window)%Q ->
        acquire_at self1 t_next = (false, self1)) /\
     (forall t_later,
        1 <= max_requests ->
        Forall (fun t => (t + time_window <= t_later)%Q) ts ->
        fst (acquire_at self1 t_later) = true)).
Proof.
  split.
  - intros ts t_now bs self1 self2.
    apply granted_in_window_bounded.
  - intros ts t_lo Hlen Hwin self1. split; [| split].
    + unfold init.
      rewrite (acquire_each_in_window _ _ t_lo ts Hwin []);
        [reflexivity | constructor | cbn; lia].
    + intros t_next Hlo Hhi. unfold acquire_at, self1. cbn.
      rewrite remove_old_head_live.
      2:{ destruct ts as [| t1 rest]; [exact I |].
          inversion Hwin as [| ? ? [H1 H2] _]; subst. lra. }
      destruct (Z.ltb_spec (Z.of_nat (length ts)) max_requests);
        [lia | reflexivity].
    + intros t_later HR Hexp. unfold acquire_at, self1. cbn.
      rewrite remove_old_all_expired.
      2:{ eapply Forall_impl; [exact Hexp |]. cbn. intros a Ha. lra. }
      cbn [length].
      destruct (Z.ltb_spec (Z.of_nat 0) max_requests); [reflexivity | lia].
Qed.

End Limiter.

(** ** The manager's registries *)

Section Registry.
Import ResilienceManager.
Implicit Types (self : ResilienceManager.t) (st : Store) (name : string).

(** C4, as the code has it.  Each [create_*] constructs a new object at
    an address that held nothing, leaves the objects already in the
    store as they are, and binds the name to the new address, whatever
    the name was bound to; the other names keep their binding.  The
    lookups [get_*] read the binding and create nothing.  (A bulkhead
    with a negative size is refused and nothing changes.) *)
Theorem create_binds_name_to_new_instance self name st :
  (forall config,
     let '(l, self', st') := create_circuit_breaker self name config st in
     cb_objs st !! l = None /\
     cb_objs st' = cb_objs st ++ [CircuitBreaker.init name config] /\
     cb_objs st' !! l = Some (CircuitBreaker.init name config) /\
     get_circuit_breaker self' name = Some l /\
     forall other, other <> name ->
       get_circuit_breaker self' other = get_circuit_breaker self other) /\
  (forall max_requests time_window,
     let '(l, self', st') :=
       create_rate_limiter self name max_requests time_window st in
     rl_objs st !! l = None /\
     rl_objs st' = rl_objs st ++ [RateLimiter.init max_requests time_window] /\
     rl_objs st' !! l = Some (RateLimiter.init max_requests time_window) /\
     get_rate_limiter self' name = Some l /\
     forall other, other <> name ->
       get_rate_limiter self' other = get_rate_limiter self other) /\
  (forall max_concurrent,
     match create_bulkhead self name max_concurrent st with
     | (Ok l, self', st') =>
         bh_objs st !! l = None /\
         bh_objs st' =
           bh_objs st ++ [Bulkhead.mk name max_concurrent max_concurrent 0] /\
         bh_objs st' !! l =
           Some (Bulkhead.mk name max_concurrent max_concurrent 0) /\
         get_bulkhead self' name = Some l /\
         forall other, other <> name ->
           get_bulkhead self' other = get_bulkhead self other
     | (Raise _, self', st') =>
         max_concurrent < 0 /\ self' = self /\ st' = st
     end).
Proof.
  split; [| split].
  - intros config. cbn. repeat split.
    + apply lookup_ge_None_2. lia.
    + apply list_lookup_middle. reflexivity.
    + unfold get_circuit_breaker. cbn. apply lookup_insert_eq.
    + intros other Hne. unfold get_circuit_breaker. cbn.
      now apply lookup_insert_ne.
  - intros max_requests time_window. cbn. repeat split.
    + apply lookup_ge_None_2. lia.
    + apply list_lookup_middle. reflexivity.
    + unfold get_rate_limiter. cbn. apply lookup_insert_eq.
    + intros other Hne. unfold get_rate_limiter. cbn.
      now apply lookup_insert_ne.
  - intros max_concurrent. unfold create_bulkhead, Bulkhead.init.
    destruct (Z.ltb_spec max_concurrent 0); [auto |].
    cbn. repeat split.
    + apply lookup_ge_None_2. lia.
    + apply list_lookup_middle. reflexivity.
    + unfold get_bulkhead. cbn. apply lookup_insert_eq.
    + intros other Hne. unfold get_bulkhead. cbn.
      now apply lookup_insert_ne.
Qed.

Section Composition.
Context {S R : Type}.
Variable str_float : Q -> string.

(** When the named breaker exists, the breaker's [call] is the whole of
    [_execute_with_circuit_breaker_and_retry]: the retry configuration
    and the timeout are not read. *)
Lemma breaker_branch_returns_early self (func : Op S R) cb_name
    circuit_breaker cb timeout retry_config st (w : World S R) :
  given cb_name ≫= get_circuit_breaker self = Some circuit_breaker ->
  cb_objs st !! circuit_breaker = Some cb ->
  _execute_with_circuit_breaker_and_retry str_float self func cb_name
    timeout retry_config st w
  = let '(o, cb', w') := CircuitBreaker.call cb func w in
    Some (o,
          mkStore (<[circuit_breaker := cb']> (cb_objs st))
                  (rl_objs st) (bh_objs st),
          w').
Proof.
  intros Hg Hl. unfold _execute_with_circuit_breaker_and_retry.
  now rewrite Hg, Hl.
Qed.

End Composition.
End Registry.

(** ** Concrete runs *)

Module Runs.
Import CircuitBreaker Fixtures.


Lemma calculate_delay_nonpositive_attempt_witness :
  RetryManager.calculate_delay exponential_config 0 (world_at 0)
  = (Ok 0%Q, world_at 0).
Proof.
  apply (calculate_delay_nonpositive_attempt exponential_config 0 (world_at 0)).
  lia.
Defined.



Lemma open_breaker_recovery_witness :
  call open_breaker failing_op (world_at 120)
    = (Raise (open_error open_breaker), open_breaker, world_at 120) /\
  exists self1,
    admission open_breaker 160 = Some self1 /\
    state self1 = HALF_OPEN /\
    success_count self1 = 0 /\
    call open_breaker failing_op (world_at 160)
      = execute self1 failing_op (world_at 160) /\
    exists o,
      trace (snd (call open_breaker failing_op (world_at 160)))
        = trace (world_at 160) ++ [EvCall o].
Proof.
  split.
  - apply (open_breaker_recovery open_breaker failing_op (world_at 120) 100);
      [reflexivity | reflexivity | reflexivity].
  - apply (open_breaker_recovery open_breaker failing_op (world_at 160) 100);
      [reflexivity | reflexivity |].
    unfold Qle. simpl. lia.
Defined.

Lemma call_wraps_operation_error_witness :
  fst (fst (call (init "api" default_config) failing_op (world_at 0))) =
    Raise (mkExn CircuitBreakerException "Circuit breaker api failure: boom")
  /\ CircuitBreakerException <> CircuitBreakerOpenException
  /\ CircuitBreakerException <> CircuitBreakerTimeoutException
  /\ isinstance (open_error (init "api" default_config))
       CircuitBreakerException = true
  /\ isinstance (timeout_error (init "api" default_config))
       CircuitBreakerException = true.
Proof.
  apply (call_wraps_operation_error (init "api" default_config) failing_op
           (world_at 0) (init "api" default_config) value_error
           (tick (env (world_at 0))));
    reflexivity.
Defined.

Lemma sliding_window_rate_limit_witness :
  Z.of_nat (length (later_than (5 - 10)
                      (granted [0%Q; 1%Q] [true; true] ++ [5%Q]))) <= 3 /\
  RateLimiter.acquire_at (RateLimiter.mk 2 10 [0%Q; 1%Q]) 9
    = (false, RateLimiter.mk 2 10 [0%Q; 1%Q]) /\
  fst (RateLimiter.acquire_at (RateLimiter.mk 2 10 [0%Q; 1%Q]) 11) = true.
Proof.
  split; [| split].
  - apply (proj1 (sliding_window_rate_limit 3 10) [0%Q; 1%Q] 5%Q
             [true; true] (RateLimiter.mk 3 10 [0%Q; 1%Q])
             (RateLimiter.mk 3 10 [0%Q; 1%Q; 5%Q])).
    + repeat constructor; unfold Qle; simpl; lia.
    + reflexivity.
    + reflexivity.
  - apply (proj2 (sliding_window_rate_limit 2 10) [0%Q; 1%Q] 0%Q).
    + reflexivity.
    + repeat constructor; unfold Qle, Qlt; simpl; lia.
    + unfold Qle; simpl; lia.
    + reflexivity.
  - apply (proj2 (sliding_window_rate_limit 2 10) [0%Q; 1%Q] 0%Q).
    + reflexivity.
    + repeat constructor; unfold Qle, Qlt; simpl; lia.
    + lia.
    + repeat constructor; unfold Qle; simpl; lia.
Defined.

(** The window is open at its old end: with one request per unit of
    time, the grants at instants 0 and 1 both lie in the closed interval
    from [1 - 1] to [1]. *)
Example grant_at_window_boundary :
  fst (acquire_each (RateLimiter.init 1 1) [0%Q; 1%Q]) = [true; true].
Proof. reflexivity. Qed.

(** C7, what the code does.  Three attempts are allowed and the
    callable is a [functools.partial] object whose function always
    raises [ValueError("boom")].  The handler of the first failure reads
    [func.__name__] for its log call: the operation has been invoked
    once, nothing is retried, and the caller receives the
    [AttributeError] instead of the [ValueError].  And with the default
    strategy the delay for attempt 1025 is not computed: 2.0 ** 1024
    raises [OverflowError] in the handler.  With 1026 attempts allowed
    and a named function that always raises [ValueError("boom")], the
    operation is invoked 1025 times and the caller receives the
    [OverflowError]. *)
Theorem retry_stops_in_its_handler :
  let r :=
    RetryManager.execute_with_retry exponential_config (op_name partial_op)
      (invoke partial_op None) None (world_at 0) in
  let r' :=
    RetryManager.execute_with_retry long_config (op_name failing_op)
      (invoke failing_op None) None (world_at 0) in
  fst r = Raise (mkExn AttributeError
                   "'functools.partial' object has no attribute '__name__'") /\
  calls (trace (snd r)) = [Raise value_error] /\
  RetryManager.calculate_delay long_config 1025 (world_at 0)
    = (Raise overflow_error, world_at 0) /\
  fst r' = Raise overflow_error /\
  length (calls (trace (snd r'))) = 1025%nat /\
  last (calls (trace (snd r'))) = Some (Raise value_error).
Proof. vm_compute. repeat split. Qed.

(** C3, the claim as worded fails: through a closed breaker, the
    caller of an operation that raises [ValueError("boom")] does not
    receive that exception. *)
Lemma call_does_not_pass_error_through :
  fst (fst (call (init "api" default_config) failing_op (world_at 0)))
    <> Raise value_error.
Proof. vm_compute. discriminate. Qed.

(** C5, the claim as worded fails: a call refused by the open breaker
    does not count as a request. *)
Lemma refused_call_is_not_counted :
  total_requests (snd (fst (call open_breaker failing_op (world_at 120))))
    <> total_requests open_breaker + 1.
Proof. vm_compute. discriminate. Qed.

End Runs.

Module ManagerRuns.
Import ResilienceManager Fixtures.

Lemma create_binds_name_to_new_instance_witness :
  get_circuit_breaker
    (snd (fst (create_circuit_breaker init "api"
                 CircuitBreaker.default_config empty_store))) "db"
  = get_circuit_breaker init "db".
Proof.
  apply (proj1 (create_binds_name_to_new_instance init "api" empty_store)
           CircuitBreaker.default_config).
  discriminate.
Defined.

(** C4, the claim as worded fails: a second [create_circuit_breaker]
    with a name already registered constructs a second breaker and binds
    the name to it; the lookup no longer returns the first one, which a
    failed call had marked. *)
Lemma create_twice_replaces_instance :
  let '(l0, m1, st1) :=
    create_circuit_breaker init "api" CircuitBreaker.default_config
      empty_store in
  let st1' :=
    match _execute_with_circuit_breaker_and_retry (fun _ => ""%string)
            m1 failing_op (Some "api"%string) None None st1 (world_at 0) with
    | Some (_, st, _) => st
    | None => st1
    end in
  let '(l1, m2, st2) :=
    create_circuit_breaker m1 "api" CircuitBreaker.default_config st1' in
  get_circuit_breaker m1 "api" = Some l0 /\
  l1 <> l0 /\
  get_circuit_breaker m2 "api" <> Some l0 /\
  length (cb_objs st2) = 2%nat /\
  (CircuitBreaker.total_requests <$> cb_objs st2 !! l0) = Some 1 /\
  (CircuitBreaker.total_requests <$>
     (get_circuit_breaker m2 "api" ≫= (cb_objs st2 !!.))) = Some 0.
Proof. vm_compute. repeat split; discriminate. Qed.

(** C1, what the code does.  A breaker is registered under "api"; the
    entry point is given that name and a retry configuration with three
    attempts; the operation fails at its first invocation and would
    return 42 at its second.  The breaker's [call] is made once, its
    failure is raised to the caller and the operation is not invoked
    again: nothing is retried. *)
Theorem breaker_call_is_not_retried (str_float : Q -> string) :
  let '(_, m, st) :=
    create_circuit_breaker init "api" CircuitBreaker.default_config
      empty_store in
  let r :=
    execute_with_resilience str_float 0 m flaky_op
      (Some "api"%string) None None None
      (Some exponential_config) st (world_at 0) in
  (fst ∘ fst <$> r) =
    Some (Raise (mkExn CircuitBreakerException
                       "Circuit breaker api failure: connection refused")) /\
  (calls ∘ trace ∘ snd <$> r) = Some [Raise connection_error] /\
  (fst ∘ run flaky_op (Some 30%Q) ∘ env ∘ snd <$> r) = Some (Ok 42).
Proof. vm_compute. repeat split. Qed.

End ManagerRuns.

(** * Further properties *)

(** ** The retry loop *)

Section RetryAttempts.
Import RetryManager.
Context {S R A : Type}.
Implicit Types (config : RetryConfig) (w : World S R) (func : M S R A).

Lemma sleeps_app (tr1 tr2 : list (Event R)) :
  sleeps (tr1 ++ tr2) = sleeps tr1 ++ sleeps tr2.
Proof.
  induction tr1 as [| [o | d] tr1 IH]; cbn; [reflexivity | |];
    now rewrite IH.
Qed.

(** A run that ends at the invocation it has just made. *)
Lemma single_attempt config (func_name : Outcome string)
    (P : Outcome R -> Outcome A -> Prop) exceptions (n : nat) (k : Z)
    w w1 oc (o ol : Outcome A) :
  trace w1 = trace w ++ [EvCall oc] ->
  P oc ol ->
  ((exists name, func_name = Ok name) ->
   (forall a, k <= a < max_attempts config -> delay_computable config a) ->
   o = ol /\
   (forall e, o = Raise e -> caught_by e exceptions = true -> O = n)) ->
  exists evs outs o_last,
    trace w1 = trace w ++ evs /\
    Forall2 P (calls evs) (outs ++ [o_last]) /\
    (length outs <= n)%nat /\
    Forall (fun o' => exists e,
              o' = Raise e /\ caught_by e exceptions = true) outs /\
    length (sleeps evs) = length outs /\
    Forall (fun d => (d <= max_delay config)%Q) (sleeps evs) /\
    ((exists name, func_name = Ok name) ->
     (forall a, k <= a < max_attempts config ->
                delay_computable config a) ->
     o = o_last /\
     (forall e, o = Raise e -> caught_by e exceptions = true ->
                length outs = n)).
Proof.
  intros Htr HP Hcond. exists [EvCall oc], [], ol. cbn.
  split; [exact Htr |]. split; [repeat constructor; exact HP |].
  split; [lia |]. split; [constructor |]. split; [reflexivity |].
  split; [constructor | exact Hcond].
Qed.

(** A run of the loop from attempt [k] on, [n] attempts being left
    after this one: the invocations made, the sleeps between them, and,
    when the callable has a name and the delays are computable, the
    outcome. *)
Lemma retry_loop_attempts config func_name func P exceptions :
  one_call func P ->
  forall (n : nat) (k : Z) last_exception w o w',
    1 <= k ->
    k + Z.of_nat n = max_attempts config ->
    retry_loop config func_name func exceptions
      (range k (max_attempts config + 1)) last_exception w = (o, w') ->
    exists evs outs o_last,
      trace w' = trace w ++ evs /\
      Forall2 P (calls evs) (outs ++ [o_last]) /\
      (length outs <= n)%nat /\
      Forall (fun o' => exists e,
                o' = Raise e /\ caught_by e exceptions = true) outs /\
      length (sleeps evs) = length outs /\
      Forall (fun d => (d <= max_delay config)%Q) (sleeps evs) /\
      ((exists name, func_name = Ok name) ->
       (forall a, k <= a < max_attempts config ->
                  delay_computable config a) ->
       o = o_last /\
       (forall e, o = Raise e -> caught_by e exceptions = true ->
                  length outs = n)).
Proof.
  intros Hone n.
  induction n as [| n IH]; intros k last_exception w o w' Hk Hn;
    rewrite range_cons by lia; cbn [retry_loop]; unfold attempt_body;
    destruct (Hone w) as (oc & Htr & HP);
    destruct (func w) as [[r | e] w1] eqn:Ef; cbn [fst snd] in Htr, HP.
  - (* last attempt, the call returns *)
    intros Hrun.
    assert (Hw : w' = w1 /\
                 ((exists name, func_name = Ok name) -> o = Ok r)).
    { destruct (1 <? k), func_name as [nm | en]; cbn in Hrun;
        try destruct (caught_by en exceptions);
        injection Hrun as <- <-; split; try reflexivity; intros [? [=]]. }
    destruct Hw as [-> Ho].
    apply single_attempt with (oc := oc) (ol := Ok r);
      [exact Htr | exact HP |].
    intros Hname _. rewrite (Ho Hname). split; [reflexivity | discriminate].
  - (* last attempt, the call raises *)
    rewrite range_nil by lia. intros Hrun.
    assert (Hw : w' = w1 /\
                 ((exists name, func_name = Ok name) -> o = Raise e)).
    { destruct (caught_by e exceptions); [| injection Hrun as <- <-; auto].
      destruct func_name as [nm | en].
      - replace (k =? max_attempts config) with true in Hrun
          by (symmetry; apply Z.eqb_eq; lia).
        cbn in Hrun. injection Hrun as <- <-. auto.
      - injection Hrun as <- <-. split; [reflexivity |]. intros [? [=]]. }
    destruct Hw as [-> Ho].
    apply single_attempt with (oc := oc) (ol := Raise e);
      [exact Htr | exact HP |].
    intros Hname _. split; [now apply Ho | reflexivity].
  - (* an earlier attempt, the call returns *)
    intros Hrun.
    assert (Hw : w' = w1 /\
                 ((exists name, func_name = Ok name) -> o = Ok r)).
    { destruct (1 <? k), func_name as [nm | en]; cbn in Hrun;
        try destruct (caught_by en exceptions);
        injection Hrun as <- <-; split; try reflexivity; intros [? [=]]. }
    destruct Hw as [-> Ho].
    apply single_attempt with (oc := oc) (ol := Ok r);
      [exact Htr | exact HP |].
    intros Hname _. rewrite (Ho Hname). split; [reflexivity | discriminate].
  - (* an earlier attempt, the call raises *)
    destruct (caught_by e exceptions) eqn:Hc.
    + destruct func_name as [nm | en] eqn:Hname.
      * replace (k =? max_attempts config) with false
          by (symmetry; apply Z.eqb_neq; lia).
        destruct (calculate_delay_outcome config k w1 Hk)
          as [(d & w2 & Ed & Et2 & Hd) | (Hs & Ho & Ed)].
        -- unfold bind at 1. rewrite Ed. unfold bind at 1. cbn [sleep].
           intros Hloop.
           apply IH in Hloop
             as (evs & outs & ol & Ht & HF2 & Hlen & Hcaught & Hsl
                 & Hsd & Hex); [| lia | lia].
           exists (EvCall oc :: EvSleep d :: evs), (Raise e :: outs), ol.
           cbn [trace] in Ht. rewrite Ht, Et2, Htr, <- !app_assoc. cbn.
           split; [reflexivity |]. split; [constructor; assumption |].
           split; [lia |]. split; [constructor; eauto |].
           split; [now f_equal |]. split; [constructor; assumption |].
           intros Hnm Hcomp.
           destruct (Hex Hnm) as [Hol Hfull];
             [intros a Ha; apply Hcomp; lia |].
           split; [exact Hol |].
           intros e0 He0 Hc0. f_equal. now apply Hfull with (e := e0).
        -- unfold bind at 1. rewrite Ed. intros [= <- <-].
           apply single_attempt with (oc := oc) (ol := Raise e);
             [exact Htr | exact HP |].
           intros _ Hcomp. exfalso.
           specialize (Hcomp k ltac:(lia) Hs). congruence.
      * intros [= <- <-].
        apply single_attempt with (oc := oc) (ol := Raise e);
             [exact Htr | exact HP |].
        intros [? [=]].
    + intros [= <- <-].
      apply single_attempt with (oc := oc) (ol := Raise e);
             [exact Htr | exact HP |].
      intros _ _. split; [reflexivity |]. intros e0 [= <-]. congruence.
Qed.

End RetryAttempts.

Section RetryBounds.
Import RetryManager.
Context {S R : Type}.
Implicit Types (config : RetryConfig) (w : World S R) (func : Op S R).

Lemma invoke_one_call func deadline :
  one_call (invoke func deadline)
    (fun oc o =>
       oc = o /\ exists e0 e1, run func deadline e0 = (o, e1)).
Proof.
  intros w. unfold invoke.
  destruct (run func deadline (env w)) as [o e1] eqn:Er. cbn. eauto 6.
Qed.

Lemma Forall2_eq_inv {B : Type} (P : B -> Prop) (l1 l2 : list B) :
  Forall2 (fun x y => x = y /\ P y) l1 l2 -> l1 = l2 /\ Forall P l2.
Proof.
  induction 1 as [| x y l1 l2 [-> HP] _ [-> IH]];
    split; auto; constructor; auto.
Qed.

(** X1.  [execute_with_retry] with [max_attempts = N >= 1] invokes
    the operation at least once and at most N times, whatever the
    operation does; every invocation before the last raised an exception
    of a retried class; it sleeps once between two invocations, never
    after the last, each time for at most [max_delay].  When the
    callable has a [__name__] and the exponential power stays in the
    float range for the attempts below N, the outcome it ends with is
    that of the last invocation, and it gives up on a retried exception
    only when all N attempts are used. *)
Theorem execute_with_retry_attempts config func deadline exceptions w o w' :
  1 <= max_attempts config ->
  execute_with_retry config (op_name func) (invoke func deadline)
    exceptions w = (o, w') ->
  exists evs outs o_last,
    trace w' = trace w ++ evs /\
    calls evs = outs ++ [o_last] /\
    Z.of_nat (length outs) < max_attempts config /\
    Forall (fun o' => exists e,
              o' = Raise e /\
              caught_by e (match exceptions with
                           | None => [Exception]
                           | Some l => l
                           end) = true) outs /\
    length (sleeps evs) = length outs /\
    Forall (fun d => (d <= max_delay config)%Q) (sleeps evs) /\
    ((exists name, op_name func = Ok name) ->
     (forall a, 1 <= a < max_attempts config ->
                delay_computable config a) ->
     o = o_last /\
     (forall e, o = Raise e ->
        caught_by e (match exceptions with
                     | None => [Exception]
                     | Some l => l
                     end) = true ->
        Z.of_nat (length outs) + 1 = max_attempts config)).
Proof.
  intros HN Hrun. unfold execute_with_retry in Hrun.
  apply (retry_loop_attempts config _ _ _ _ (invoke_one_call func deadline)
           (Z.to_nat (max_attempts config - 1)) 1) in Hrun
    as (evs & outs & o_last & Ht & HF2 & Hlen & Hcaught & Hsl & Hsd & Hex);
    [| lia | lia].
  exists evs, outs, o_last. apply Forall2_eq_inv in HF2 as [HF2 _].
  repeat split; auto; try lia.
  - now apply Hex.
  - intros e He Hc. destruct (Hex H H0) as [_ Hn].
    rewrite (Hn e He Hc). lia.
Qed.

(** X2.  With [max_attempts <= 0] the loop body never runs and the
    callable, whatever it is, is not called: the log call after the loop
    reads [func.__name__], and [execute_with_retry] raises the
    [TypeError] of [raise None] when the callable has a name, and the
    exception of that read when it has none. *)
Theorem execute_with_retry_no_attempts {A : Type} config func_name
    (func : M S R A) exceptions w :
  max_attempts config <= 0 ->
  execute_with_retry config func_name func exceptions w =
    (match func_name with
     | Ok _ =>
         Raise (mkExn TypeError "exceptions must derive from BaseException")
     | Raise e_name => Raise e_name
     end, w).
Proof.
  intros HN. unfold execute_with_retry. rewrite range_nil by lia.
  cbn [retry_loop]. unfold after_loop. destruct func_name; reflexivity.
Qed.

(** X22.  When the callable has a [__name__], the exponential power
    stays in the float range for the attempts below N =
    [max_attempts] >= 1, and the operation fails at every invocation
    with an exception of a retried class, [execute_with_retry] invokes
    the operation exactly N times, sleeps N - 1 times and raises the
    exception of the N-th invocation. *)
Theorem execute_with_retry_exhausts config func deadline exceptions w name :
  1 <= max_attempts config ->
  op_name func = Ok name ->
  (forall a, 1 <= a < max_attempts config -> delay_computable config a) ->
  always_fails func deadline
    (match exceptions with None => [Exception] | Some l => l end) ->
  exists e w' evs,
    execute_with_retry config (op_name func) (invoke func deadline)
      exceptions w = (Raise e, w') /\
    trace w' = trace w ++ evs /\
    length (calls evs) = Z.to_nat (max_attempts config) /\
    last (calls evs) = Some (Raise e) /\
    Datatypes.S (length (sleeps evs)) = length (calls evs).
Proof.
  intros HN Hname Hcomp Hfail. unfold execute_with_retry.
  destruct (retry_loop _ _ _ _ _ _ w) as [o w'] eqn:Hrun.
  apply (retry_loop_attempts config _ _ _ _ (invoke_one_call func deadline)
           (Z.to_nat (max_attempts config - 1)) 1) in Hrun
    as (evs & outs & o_last & Ht & HF2 & Hlen & Hcaught & Hsl & Hsd & Hex);
    [| lia | lia].
  apply Forall2_eq_inv in HF2 as [Hcalls Hran].
  destruct (Hex (ex_intro _ name Hname) Hcomp) as [-> Hn].
  apply Forall_app in Hran as [_ Hlast].
  inversion Hlast as [| ? ? (e0 & e1 & Hr) _]; subst.
  destruct (Hfail e0) as (e & e2 & Hr' & Hc). rewrite Hr in Hr'.
  injection Hr' as -> _.
  exists e, w', evs. rewrite Hcalls, length_app, last_snoc. cbn [length].
  pose proof (Hn e eq_refl Hc) as Hno.
  repeat split; auto; lia.
Qed.

End RetryBounds.

(** ** The delay between attempts *)

Section DelayBounds.
Import RetryManager.
Context {S R : Type}.
Implicit Types (config : RetryConfig) (w : World S R).

Lemma py_min_nonneg (a b : Q) : (0 <= a)%Q -> (0 <= b)%Q -> (0 <= py_min a b)%Q.
Proof. intros Ha Hb. unfold py_min. destruct (Qlt_le_dec b a); assumption. Qed.

Lemma py_min_mono (a b m : Q) : (a <= b)%Q -> (py_min a m <= py_min b m)%Q.
Proof.
  intros Hab. unfold py_min.
  destruct (Qlt_le_dec m a), (Qlt_le_dec m b); lra.
Qed.

Lemma inject_Z_ge_1 (z : Z) : 1 <= z -> (1 <= inject_Z z)%Q.
Proof. intros Hz. change 1%Q with (inject_Z 1). now rewrite <- Zle_Qle. Qed.

(** The delay of the three strategies that draw no random number. *)
Lemma strategy_delay_deterministic config attempt w :
  strategy config <> RANDOM ->
  1 <= attempt ->
  (0 <= base_delay config)%Q ->
  (0 <= backoff_multiplier config)%Q ->
  delay_computable config attempt ->
  exists d0,
    strategy_delay config attempt w = (Ok d0, w) /\ (0 <= d0)%Q.
Proof.
  intros Hs Ha Hb Hm Hc.
  destruct (strategy config) eqn:E; [| | | congruence].
  - unfold strategy_delay. rewrite E. eexists. split; [reflexivity |].
    assumption.
  - rewrite strategy_delay_exponential by auto. eexists.
    split; [reflexivity |].
    apply Qmult_le_0_compat; [assumption |]. now apply Qpower_0_le.
  - unfold strategy_delay. rewrite E. eexists. split; [reflexivity |].
    apply Qmult_le_0_compat; [assumption |].
    pose proof (inject_Z_ge_1 attempt Ha). lra.
Qed.

(** The nominal delays of an attempt and of a later one. *)
Lemma strategy_delay_monotone config a1 a2 w :
  strategy config <> RANDOM ->
  (0 <= base_delay config)%Q ->
  (1 <= backoff_multiplier config)%Q ->
  1 <= a1 -> a1 <= a2 ->
  delay_computable config a2 ->
  exists d1 d2,
    strategy_delay config a1 w = (Ok d1, w) /\
    strategy_delay config a2 w = (Ok d2, w) /\
    (d1 <= d2)%Q.
Proof.
  intros Hs Hb Hm H1 H12 Hc.
  destruct (strategy config) eqn:E; [| | | congruence].
  - unfold strategy_delay. rewrite E. do 2 eexists.
    split; [reflexivity |]. split; [reflexivity |]. lra.
  - assert (O2 : overflows (backoff_multiplier config ^ (a2 - 1)) = false)
      by auto.
    assert (O1 : overflows (backoff_multiplier config ^ (a1 - 1)) = false)
      by (apply overflows_earlier with (n2 := a2 - 1);
          [assumption | lia | lia | assumption]).
    rewrite !strategy_delay_exponential by assumption. do 2 eexists.
    split; [reflexivity |]. split; [reflexivity |].
    rewrite (Qmult_comm _ (_ ^ (a1 - 1))), (Qmult_comm _ (_ ^ (a2 - 1))).
    apply Qmult_le_compat_r; [| assumption].
    apply Qpower_le_compat_l; [lia | assumption].
  - unfold strategy_delay. rewrite E. do 2 eexists.
    split; [reflexivity |]. split; [reflexivity |].
    rewrite (Qmult_comm _ (inject_Z a1)), (Qmult_comm _ (inject_Z a2)).
    apply Qmult_le_compat_r; [| assumption]. now rewrite <- Zle_Qle.
Qed.

Lemma random_strategy_delay_bounds config attempt w :
  strategy config = RANDOM ->
  1 <= attempt ->
  (0 <= base_delay config)%Q ->
  (0 <= rng (env w) O)%Q -> (rng (env w) O <= 1)%Q ->
  exists d w',
    strategy_delay config attempt w = (Ok d, w') /\
    (base_delay config <= d)%Q /\
    (d <= base_delay config * inject_Z attempt)%Q /\
    (forall n, rng (env w') n = rng (env w) (Datatypes.S n)).
Proof.
  intros Hs Ha Hb Hu0 Hu1. unfold strategy_delay. rewrite Hs.
  unfold uniform, bind, random, ret. do 2 eexists.
  split; [reflexivity |]. cbn [env rng].
  pose proof (inject_Z_ge_1 attempt Ha) as HA.
  set (u := rng (env w) O) in *. set (b := base_delay config) in *.
  set (a := inject_Z attempt) in *.
  assert (H1 : (0 <= b * (a - 1) * u)%Q).
  { apply Qmult_le_0_compat; [| assumption].
    apply Qmult_le_0_compat; [assumption | lra]. }
  assert (H2 : (0 <= b * (a - 1) * (1 - u))%Q).
  { apply Qmult_le_0_compat; [| lra].
    apply Qmult_le_0_compat; [assumption | lra]. }
  repeat split.
  - assert (Heq : ((b + (b * a - b) * u) == (b + b * (a - 1) * u))%Q) by ring.
    lra.
  - assert (Heq : ((b + (b * a - b) * u) == (b * a - b * (a - 1) * (1 - u)))%Q) by ring.
    lra.
Qed.

(** X3.  With the random strategy, a base delay that is not negative
    and an attempt number from 1 on, the delay before jitter lies between
    [base_delay] and [base_delay * attempt], one random number being
    drawn. *)
Theorem random_strategy_delay_range config attempt w :
  strategy config = RANDOM ->
  1 <= attempt ->
  (0 <= base_delay config)%Q ->
  (0 <= rng (env w) O)%Q -> (rng (env w) O <= 1)%Q ->
  exists d w',
    strategy_delay config attempt w = (Ok d, w') /\
    (base_delay config <= d)%Q /\
    (d <= base_delay config * inject_Z attempt)%Q /\
    (forall n, rng (env w') n = rng (env w) (Datatypes.S n)).
Proof. apply random_strategy_delay_bounds. Qed.

(** X4.  With jitter and a strategy other than the random one, the
    delay returned for an attempt from 1 on, the exponential power
    being in the float range, is the nominal delay multiplied by a
    factor between 0.5 and 1.5 and then clamped: it lies between
    [min(0.5 * d0, max_delay)] and [min(1.5 * d0, max_delay)], and
    exactly one random number is drawn. *)
Theorem jittered_delay_range config attempt w :
  jitter config = true ->
  strategy config <> RANDOM ->
  1 <= attempt ->
  (0 <= base_delay config)%Q ->
  (0 <= backoff_multiplier config)%Q ->
  delay_computable config attempt ->
  (0 <= rng (env w) O)%Q -> (rng (env w) O <= 1)%Q ->
  exists d0 d w',
    strategy_delay config attempt w = (Ok d0, w) /\
    calculate_delay config attempt w = (Ok d, w') /\
    (py_min ((1 # 2) * d0) (max_delay config) <= d)%Q /\
    (d <= py_min ((3 # 2) * d0) (max_delay config))%Q /\
    (forall n, rng (env w') n = rng (env w) (Datatypes.S n)).
Proof.
  intros Hj Hs Ha Hb Hm Hcomp Hu0 Hu1.
  destruct (strategy_delay_deterministic config attempt w Hs Ha Hb Hm Hcomp)
    as (d0 & Ed & Hd0).
  unfold calculate_delay.
  destruct (Z.leb_spec attempt 0) as [Hle | _]; [lia |].
  unfold bind at 1. rewrite Ed. unfold apply_jitter. rewrite Hj.
  unfold uniform, bind, random, ret. exists d0. do 2 eexists.
  split; [reflexivity |]. split; [reflexivity |]. cbn [env rng].
  set (u := rng (env w) O) in *.
  assert (H1 : (0 <= d0 * u)%Q) by (now apply Qmult_le_0_compat).
  assert (H2 : (0 <= d0 * (1 - u))%Q)
    by (apply Qmult_le_0_compat; [assumption | lra]).
  repeat split.
  - apply py_min_mono.
    assert (Heq : ((d0 * ((1 # 2) + ((3 # 2) - (1 # 2)) * u)) == ((1 # 2) * d0 + d0 * u))%Q) by ring.
    lra.
  - apply py_min_mono.
    assert (Heq : ((d0 * ((1 # 2) + ((3 # 2) - (1 # 2)) * u)) == ((3 # 2) * d0 - d0 * (1 - u)))%Q) by ring.
    lra.
Qed.

Lemma calculate_delay_plain config attempt w d0 w' :
  jitter config = false ->
  1 <= attempt ->
  strategy_delay config attempt w = (Ok d0, w') ->
  calculate_delay config attempt w = (Ok (py_min d0 (max_delay config)), w').
Proof.
  intros Hj Ha E. unfold calculate_delay.
  destruct (Z.leb_spec attempt 0) as [Hle0 | _]; [lia |].
  unfold bind at 1. rewrite E. unfold apply_jitter. rewrite Hj.
  reflexivity.
Qed.

(** X5.  Without jitter and with a strategy other than the random
    one, a base delay that is not negative and a multiplier of at least
    1, the delay returned (after clamping) does not decrease from one
    attempt to a later one whose exponential power is in the float
    range, and no random number is drawn. *)
Theorem clamped_delay_monotone config a1 a2 w :
  jitter config = false ->
  strategy config <> RANDOM ->
  (0 <= base_delay config)%Q ->
  (1 <= backoff_multiplier config)%Q ->
  1 <= a1 -> a1 <= a2 ->
  delay_computable config a2 ->
  exists d1 d2,
    calculate_delay config a1 w = (Ok d1, w) /\
    calculate_delay config a2 w = (Ok d2, w) /\
    (d1 <= d2)%Q.
Proof.
  intros Hj Hs Hb Hm H1 H12 Hc.
  destruct (strategy_delay_monotone config a1 a2 w Hs Hb Hm H1 H12 Hc)
    as (d1 & d2 & E1 & E2 & Hle).
  rewrite (calculate_delay_plain config a1 w d1 w Hj H1 E1).
  rewrite (calculate_delay_plain config a2 w d2 w Hj ltac:(lia) E2).
  do 2 eexists. split; [reflexivity |]. split; [reflexivity |].
  now apply py_min_mono.
Qed.

(** X6.  When the base delay, the multiplier and [max_delay] are not
    negative, [random.random()] yields values in [0, 1] and the
    exponential power is in the float range, a delay is returned and it
    is not negative, for every attempt number, strategy and jitter
    setting. *)
Theorem calculate_delay_nonnegative config attempt w :
  (0 <= base_delay config)%Q ->
  (0 <= backoff_multiplier config)%Q ->
  (0 <= max_delay config)%Q ->
  rng_in_unit w ->
  (1 <= attempt -> delay_computable config attempt) ->
  exists d w', calculate_delay config attempt w = (Ok d, w') /\ (0 <= d)%Q.
Proof.
  intros Hb Hm Hmax Hrng Hcomp. unfold calculate_delay.
  destruct (Z.leb_spec attempt 0) as [Hle | Hgt].
  { do 2 eexists. split; [reflexivity | lra]. }
  assert (Ha : 1 <= attempt) by lia.
  assert (Hpre : exists d0 w1,
             strategy_delay config attempt w = (Ok d0, w1) /\
             (0 <= d0)%Q /\ rng_in_unit w1).
  { assert (Hdec : strategy config = RANDOM \/ strategy config <> RANDOM)
      by (destruct (strategy config); auto; right; discriminate).
    destruct Hdec as [Hs | Hs].
    - destruct (Hrng O) as [Hu0 Hu1].
      destruct (random_strategy_delay_bounds config attempt w Hs Ha Hb Hu0 Hu1)
        as (d & w' & E & Hlo & _ & Hr).
      exists d, w'. repeat split; [assumption | lra | |];
        rewrite Hr; apply Hrng.
    - destruct (strategy_delay_deterministic config attempt w Hs Ha Hb Hm
                  (Hcomp Ha))
        as (d0 & E & Hd0). eauto. }
  destruct Hpre as (d0 & w1 & E & Hd0 & Hrng1).
  unfold bind at 1. rewrite E. unfold apply_jitter.
  destruct (jitter config).
  - unfold uniform, bind, random, ret. do 2 eexists.
    split; [reflexivity |]. apply py_min_nonneg; [| assumption].
    apply Qmult_le_0_compat; [assumption |].
    destruct (Hrng1 O). lra.
  - unfold bind, ret. do 2 eexists. split; [reflexivity |].
    now apply py_min_nonneg.
Qed.

End DelayBounds.

(** ** The life cycle of the circuit breaker *)

Section BreakerLifeCycle.
Import CircuitBreaker.
Context {S R : Type}.
Implicit Types (self : CircuitBreaker.t) (w : World S R) (func : Op S R).

Lemma call_each_app (fs1 fs2 : list (Op S R)) self w :
  call_each self (fs1 ++ fs2) w =
    let '(os1, self1, w1) := call_each self fs1 w in
    let '(os2, self2, w2) := call_each self1 fs2 w1 in
    (os1 ++ os2, self2, w2).
Proof.
  revert self w. induction fs1 as [| f fs1 IH]; intros self w; cbn.
  - now destruct (call_each self fs2 w) as [[os2 self2] w2].
  - destruct (call self f w) as [[o self1] w1]. rewrite IH.
    destruct (call_each self1 fs1 w1) as [[os1 self2] w2].
    now destruct (call_each self2 fs2 w2) as [[os2 self3] w3].
Qed.

(** One call to a breaker that is not open, with an operation that
    returns. *)
Lemma call_succeeds self func w :
  state self <> OPEN -> op_succeeds func ->
  exists r e1,
    call self func w =
      (Ok r, _record_success self (clock e1),
       mkWorld e1 (trace w ++ [EvCall (Ok r)])).
Proof.
  intros Hs Hf. unfold call. rewrite admission_not_open by assumption.
  destruct (Hf (call_deadline self func) (env w)) as (r & e1 & Hr).
  exists r, e1. now apply execute_success.
Qed.

(** One call to a breaker that is not open, with an operation that
    fails. *)
Lemma call_fails self func w :
  state self <> OPEN -> op_fails func ->
  exists e' e e1,
    call self func w =
      (Raise e', _record_failure self (clock e1),
       mkWorld e1 (trace w ++ [EvCall (Raise e)])).
Proof.
  intros Hs Hf. unfold call. rewrite admission_not_open by assumption.
  destruct (Hf (call_deadline self func) (env w)) as (e & e1 & Hr & He).
  destruct (execute_failure self func w e e1 Hr He) as (e' & Ee & _).
  eauto.
Qed.

Lemma record_success_half_open self t_now :
  state self = HALF_OPEN ->
  config (_record_success self t_now) = config self /\
  if success_threshold (config self) <=? success_count self + 1 then
    state (_record_success self t_now) = CLOSED /\
    failure_count (_record_success self t_now) = 0 /\
    success_count (_record_success self t_now) = 0
  else
    state (_record_success self t_now) = HALF_OPEN /\
    failure_count (_record_success self t_now) = failure_count self /\
    success_count (_record_success self t_now) = success_count self + 1.
Proof.
  intros Hs. unfold _record_success.
  destruct (decide (state self = HALF_OPEN)); [| congruence].
  destruct (_ <=? _); cbn; auto.
Qed.

Lemma record_success_closed self t_now :
  state self = CLOSED ->
  config (_record_success self t_now) = config self /\
  state (_record_success self t_now) = CLOSED /\
  failure_count (_record_success self t_now) = 0 /\
  success_count (_record_success self t_now) = success_count self.
Proof.
  intros Hs. unfold _record_success.
  destruct (decide (state self = HALF_OPEN)); [congruence |].
  cbn. auto.
Qed.

Lemma record_failure_closed self t_now :
  state self = CLOSED ->
  config (_record_failure self t_now) = config self /\
  state (_record_failure self t_now) =
    (if failure_threshold (config self) <=? failure_count self + 1
     then OPEN else CLOSED) /\
  failure_count (_record_failure self t_now) = failure_count self + 1 /\
  success_count (_record_failure self t_now) = success_count self /\
  last_failure_time (_record_failure self t_now) = Some t_now.
Proof.
  intros Hs. unfold _record_failure.
  destruct (decide (state self = HALF_OPEN)); [congruence |].
  cbn. rewrite Hs. auto.
Qed.

Lemma closed_successes (funcs : list (Op S R)) :
  Forall op_succeeds funcs ->
  forall self w,
    state self = CLOSED -> success_count self = 0 ->
    funcs <> [] \/ failure_count self = 0 ->
    let self' := snd (fst (call_each self funcs w)) in
    state self' = CLOSED /\ failure_count self' = 0 /\
    success_count self' = 0.
Proof.
  induction 1 as [| func rest Hf _ IH]; intros self w Hs Hsc Hor.
  - cbn. destruct Hor; [congruence | auto].
  - cbn [call_each].
    destruct (call_succeeds self func w) as (r & e1 & ->);
      [congruence | assumption |].
    destruct (record_success_closed self (clock e1) Hs)
      as (_ & Hs1 & Hf1 & Hsc1).
    specialize (IH (_record_success self (clock e1))
                   (mkWorld e1 (trace w ++ [EvCall (Ok r)]))
                   Hs1 ltac:(congruence) (or_intror Hf1)).
    destruct (call_each _ rest _) as [[os self2] w2]. exact IH.
Qed.

(** X7.  In the half-open state, calls whose operation returns add to
    the success count; while the count stays below [success_threshold]
    the breaker stays half-open, and the call that brings the count to
    the threshold closes it and sets the failure and success counts to
    0, where they stay through further successes. *)
Theorem half_open_successes_close (funcs : list (Op S R)) self w :
  Forall op_succeeds funcs ->
  state self = HALF_OPEN ->
  let self' := snd (fst (call_each self funcs w)) in
  (success_count self + Z.of_nat (length funcs)
     < success_threshold (config self) ->
   state self' = HALF_OPEN /\
   success_count self' = success_count self + Z.of_nat (length funcs) /\
   failure_count self' = failure_count self) /\
  (funcs <> [] ->
   success_threshold (config self)
     <= success_count self + Z.of_nat (length funcs) ->
   state self' = CLOSED /\ failure_count self' = 0 /\
   success_count self' = 0).
Proof.
  intros Hall. revert self w.
  induction Hall as [| func rest Hf Hrest IH]; intros self w Hs.
  - cbn. split; [intros _; repeat split; (assumption || lia) | congruence].
  - cbn [call_each].
    destruct (call_succeeds self func w) as (r & e1 & ->);
      [congruence | assumption |].
    destruct (record_success_half_open self (clock e1) Hs) as (Hc & Hcase).
    set (self1 := _record_success self (clock e1)) in *.
    set (w1 := mkWorld e1 _).
    destruct (Z.leb_spec (success_threshold (config self))
                (success_count self + 1)) as [Hle | Hgt].
    + destruct Hcase as (Hs1 & Hf1 & Hsc1).
      pose proof (closed_successes rest Hrest self1 w1 Hs1 Hsc1
                    (or_intror Hf1)) as Hcl.
      destruct (call_each self1 rest w1) as [[os self2] w2].
      cbn [fst snd length] in *. split; [lia | auto].
    + destruct Hcase as (Hs1 & Hf1 & Hsc1).
      specialize (IH self1 w1 Hs1).
      destruct (call_each self1 rest w1) as [[os self2] w2].
      cbn [fst snd length] in *. destruct IH as [IHa IHb]. split.
      * intros Hlt. rewrite Hsc1, Hc, Hf1 in IHa.
        destruct IHa as (? & ? & ?); [lia |]. repeat split; [auto | lia | auto].
      * intros _ Hge. apply IHb.
        -- destruct rest; [cbn in Hge; lia | discriminate].
        -- rewrite Hsc1, Hc. lia.
Qed.

(** X8.  In the half-open state one call whose operation fails opens
    the breaker again, whatever the thresholds: the success count goes
    back to 0, the failure time is the instant the operation ended, the
    failure count is left as it was, and a call made before the recovery
    timeout has elapsed is refused. *)
Theorem half_open_failure_reopens self func w :
  state self = HALF_OPEN ->
  op_fails func ->
  exists e' self' w',
    call self func w = (Raise e', self', w') /\
    state self' = OPEN /\
    success_count self' = 0 /\
    failure_count self' = failure_count self /\
    last_failure_time self' = Some (clock (env w')) /\
    forall func1 w1,
      (clock (env w1) - clock (env w') < recovery_timeout (config self))%Q ->
      call self' func1 w1 = (Raise (open_error self'), self', w1).
Proof.
  intros Hs Hf.
  destruct (call_fails self func w) as (e' & e & e1 & ->);
    [congruence | assumption |].
  do 3 eexists. split; [reflexivity |].
  unfold _record_failure.
  destruct (decide (state self = HALF_OPEN)); [| congruence].
  cbn. repeat split.
  intros func1 w1 Ht. apply call_refused with (t0 := clock e1);
    [reflexivity | reflexivity | exact Ht].
Qed.

Lemma closed_failures_below (funcs : list (Op S R)) :
  Forall op_fails funcs ->
  forall self w,
    state self = CLOSED ->
    failure_count self + Z.of_nat (length funcs)
      < failure_threshold (config self) ->
    let self' := snd (fst (call_each self funcs w)) in
    state self' = CLOSED /\ config self' = config self /\
    failure_count self' = failure_count self + Z.of_nat (length funcs).
Proof.
  induction 1 as [| func rest Hf _ IH]; intros self w Hs Hlt.
  - cbn. repeat split; (assumption || lia).
  - cbn [call_each].
    destruct (call_fails self func w) as (e' & e & e1 & ->);
      [congruence | assumption |].
    destruct (record_failure_closed self (clock e1) Hs)
      as (Hc & Hs1 & Hf1 & _).
    cbn [length] in Hlt.
    destruct (Z.leb_spec (failure_threshold (config self))
                (failure_count self + 1)); [lia |].
    specialize (IH (_record_failure self (clock e1))
                   (mkWorld e1 (trace w ++ [EvCall (Raise e)])) Hs1).
    destruct (call_each _ rest _) as [[os self2] w2].
    cbn [fst snd] in *. rewrite Hc, Hf1 in IH.
    destruct IH as (? & ? & ?); [lia |].
    repeat split; [auto | congruence | cbn [length]; lia].
Qed.

(** X9.  Only consecutive failures open a closed breaker: after fewer
    than [failure_threshold] failures, one success sets the failure
    count back to 0, and fewer than [failure_threshold] further failures
    leave the breaker closed, its failure count being the number of
    failures since that success. *)
Theorem success_resets_failure_count (fs1 fs2 : list (Op S R)) func self w :
  state self = CLOSED ->
  Forall op_fails fs1 -> op_succeeds func -> Forall op_fails fs2 ->
  failure_count self + Z.of_nat (length fs1)
    < failure_threshold (config self) ->
  Z.of_nat (length fs2) < failure_threshold (config self) ->
  let self' := snd (fst (call_each self (fs1 ++ func :: fs2) w)) in
  state self' = CLOSED /\
  failure_count self' = Z.of_nat (length fs2).
Proof.
  intros Hs H1 Hf H2 Hlt1 Hlt2. rewrite call_each_app.
  pose proof (closed_failures_below fs1 H1 self w Hs Hlt1) as Ha.
  destruct (call_each self fs1 w) as [[os1 self1] w1].
  cbn [fst snd] in Ha. destruct Ha as (Hs1 & Hc1 & _).
  cbn [call_each].
  destruct (call_succeeds self1 func w1) as (r & e1 & ->);
    [congruence | assumption |].
  destruct (record_success_closed self1 (clock e1) Hs1)
    as (Hc2 & Hs2 & Hf2 & _).
  pose proof (closed_failures_below fs2 H2 (_record_success self1 (clock e1))
                (mkWorld e1 (trace w1 ++ [EvCall (Ok r)])) Hs2) as Hb.
  destruct (call_each _ fs2 _) as [[os2 self2] w2].
  cbn [fst snd] in *. rewrite Hf2, Hc2, Hc1 in Hb.
  destruct Hb as (? & _ & ?); [lia |]. split; [assumption | lia].
Qed.

End BreakerLifeCycle.

(** ** What a call keeps, refuses and records *)

Section BreakerInvariant.
Import CircuitBreaker.
Context {S R : Type}.
Implicit Types (self : CircuitBreaker.t) (w : World S R) (func : Op S R).

Ltac breaker_cases :=
  repeat match goal with
  | |- context [decide ?P] => destruct (decide P)
  | |- context [?a <=? ?b] => destruct (Z.leb_spec a b)
  end.

Lemma init_consistent name config : consistent (init name config).
Proof.
  unfold consistent, init. cbn.
  repeat split; try congruence; try lia.
Qed.

Lemma admission_consistent self t_now self1 :
  consistent self -> admission self t_now = Some self1 ->
  consistent self1 /\ state self1 <> OPEN.
Proof.
  unfold consistent, admission.
  intros (Hsum & Hopen & Hsc & Hf0 & Hs0 & Hcl & Hho).
  destruct (decide (state self = OPEN)) as [Ho | Hn].
  - destruct (negb _); [discriminate |]. intros [= <-]. cbn.
    repeat split; try congruence; try lia.
  - intros [= <-]. repeat split; assumption.
Qed.

Lemma record_success_consistent self t_now :
  consistent self -> state self <> OPEN ->
  consistent (_record_success self t_now).
Proof.
  unfold consistent, _record_success.
  intros (Hsum & Hopen & Hsc & Hf0 & Hs0 & Hcl & Hho) Hn.
  destruct (state self) eqn:Es; [| congruence |]; breaker_cases;
    try congruence; cbn; rewrite ?Es;
    repeat split; try congruence; try lia.
  - intros _. specialize (Hsc ltac:(congruence)). lia.
Qed.

Lemma record_failure_consistent self t_now :
  consistent self -> state self <> OPEN ->
  consistent (_record_failure self t_now).
Proof.
  unfold consistent, _record_failure.
  intros (Hsum & Hopen & Hsc & Hf0 & Hs0 & Hcl & Hho) Hn.
  destruct (state self) eqn:Es; [| congruence |]; breaker_cases;
    try congruence; cbn; rewrite ?Es;
    repeat split; try congruence; try lia;
    try (intros; apply Hsc; congruence).
Qed.

(** X10.  A new breaker is consistent, and every call keeps it so,
    whatever the operation does: [total_requests] is the sum of
    [total_failures] and [total_successes], an open breaker has a
    failure time, the success count is 0 outside the half-open state,
    and in the closed (half-open) state the failure (success) count is
    below its threshold. *)
Theorem call_keeps_breaker_consistent self func w :
  consistent self ->
  consistent (snd (fst (call self func w))).
Proof.
  intros Hc. unfold call.
  destruct (admission self (clock (env w))) as [self1 |] eqn:Ea;
    [| exact Hc].
  destruct (admission_consistent _ _ _ Hc Ea) as [Hc1 Hn1].
  unfold execute.
  destruct (invoke func _ w) as [[r | e] w1]; cbn [fst snd].
  - now apply record_success_consistent.
  - destruct (isinstance e AsyncioTimeoutError); cbn [fst snd];
      [now apply record_failure_consistent |].
    destruct (isinstance e Exception); cbn [fst snd];
      [now apply record_failure_consistent | exact Hc1].
Qed.

(** X11.  A call is refused exactly when the breaker is open, has a
    failure time and less than [recovery_timeout] has passed since; a
    refused call leaves breaker and world untouched, and every other
    call invokes the operation exactly once. *)
Theorem call_refused_iff self func w :
  (admission self (clock (env w)) = None <->
     state self = OPEN /\
     exists t0, last_failure_time self = Some t0 /\
       (clock (env w) - t0 < recovery_timeout (config self))%Q) /\
  match admission self (clock (env w)) with
  | None => call self func w = (Raise (open_error self), self, w)
  | Some _ =>
      exists oc, trace (snd (call self func w)) = trace w ++ [EvCall oc]
  end.
Proof.
  split.
  - unfold admission, _should_attempt_reset.
    destruct (decide (state self = OPEN)) as [Ho | Hn].
    + destruct (decide (state self <> OPEN)); [congruence |].
      destruct (last_failure_time self) as [t0 |] eqn:El; cbn.
      * destruct (Qle_bool _ _) eqn:E; cbn.
        -- apply Qle_bool_iff in E. split; [discriminate |].
           intros (_ & t1 & [= <-] & Hlt). lra.
        -- split; [| reflexivity]. intros _. split; [assumption |].
           exists t0. split; [reflexivity |].
           apply not_true_iff_false in E. rewrite Qle_bool_iff in E. lra.
      * split; [discriminate |]. intros (_ & t1 & [=] & _).
    + split; [discriminate |]. intros (Ho & _). congruence.
  - unfold call.
    destruct (admission self (clock (env w))) as [self1 |];
      [apply execute_invokes | reflexivity].
Qed.

(** X12.  When the operation of a call that is not refused raises
    [asyncio.TimeoutError] (the call timeout has expired), the caller
    receives a [CircuitBreakerTimeoutException] with the message
    "Circuit breaker <name> timeout" and the failure is recorded as any
    other. *)
Theorem call_reports_timeout self func w self1 e e1 :
  admission self (clock (env w)) = Some self1 ->
  run func (call_deadline self func) (env w) = (Raise e, e1) ->
  isinstance e AsyncioTimeoutError = true ->
  call self func w =
    (Raise (mkExn CircuitBreakerTimeoutException
                  ("Circuit breaker " ++ name self ++ " timeout")),
     _record_failure self1 (clock e1),
     mkWorld e1 (trace w ++ [EvCall (Raise e)])).
Proof.
  intros Ea Er Ht. unfold call. rewrite Ea.
  destruct (admission_preserves _ _ _ Ea) as (Hn & Hc & _).
  assert (Hd : call_deadline self1 func = call_deadline self func)
    by (unfold call_deadline; now rewrite Hc).
  rewrite <- Hd in Er.
  destruct (execute_failure _ _ _ _ _ Er
              (isinstance_timeout_exception e Ht)) as (e' & -> & ->).
  rewrite Ht. unfold timeout_error. now rewrite Hn.
Qed.

(** X13.  An exception that is not an [Exception] (a cancellation)
    goes through [call] unchanged and nothing is recorded.  On a breaker
    that was open and due for a probe, this leaves the breaker half-open
    with its counters and failure time as before, and the next call is
    not refused. *)
Theorem call_passes_base_exception self func w e e1 :
  run func (call_deadline self func) (env w) = (Raise e, e1) ->
  isinstance e Exception = false ->
  forall self1,
    admission self (clock (env w)) = Some self1 ->
    call self func w =
      (Raise e, self1, mkWorld e1 (trace w ++ [EvCall (Raise e)])) /\
    total_requests self1 = total_requests self /\
    total_failures self1 = total_failures self /\
    last_failure_time self1 = last_failure_time self /\
    (state self = OPEN ->
     state self1 = HALF_OPEN /\
     forall t_next, admission self1 t_next = Some self1).
Proof.
  intros Er He self1 Ea.
  destruct (admission_preserves _ _ _ Ea) as (Hn & Hc & Hr & Hf & _ & Hno).
  assert (Hd : call_deadline self1 func = call_deadline self func)
    by (unfold call_deadline; now rewrite Hc).
  split; [| repeat split; try assumption].
  - unfold call. rewrite Ea. unfold execute, invoke.
    fold (call_deadline self1 func). rewrite Hd, Er.
    destruct (isinstance e AsyncioTimeoutError) eqn:Et.
    + apply isinstance_timeout_exception in Et. congruence.
    + now rewrite He.
  - unfold admission in Ea.
    destruct (decide (state self = OPEN));
      [destruct (negb _); [discriminate |] |]; now injection Ea as <-.
  - unfold admission in Ea.
    destruct (decide (state self = OPEN)); [| congruence].
    destruct (negb _); [discriminate |]. now injection Ea as <-.
  - intros t_next. apply admission_not_open. assumption.
Qed.

End BreakerInvariant.

(** ** The rate limiter's deque and its polling loop *)

Section LimiterBounds.
Import RateLimiter.
Context {S R : Type}.
Implicit Types (self : RateLimiter.t) (w : World S R).

Lemma remove_old_length l c :
  (length (remove_old l c) <= length l)%nat.
Proof.
  induction l as [| r l IH]; cbn; [lia |].
  destruct (Qle_bool r c); cbn; lia.
Qed.

(** The loop of [acquire] either finds the oldest instant still in the
    window and removes nothing, or makes the deque shorter. *)
Lemma remove_old_cases l c :
  (remove_old l c = l /\
   match l with [] => True | r :: _ => (c < r)%Q end) \/
  (length (remove_old l c) < length l)%nat.
Proof.
  destruct l as [| r l]; cbn; [auto |].
  destruct (Qle_bool r c) eqn:E.
  - right. pose proof (remove_old_length l c). lia.
  - left. split; [reflexivity |].
    apply not_true_iff_false in E. rewrite Qle_bool_iff in E. lra.
Qed.

Lemma acquire_at_config self t_now :
  max_requests (snd (acquire_at self t_now)) = max_requests self /\
  time_window (snd (acquire_at self t_now)) = time_window self.
Proof. unfold acquire_at. destruct (_ <? _); cbn; auto. Qed.

Lemma acquire_at_length self t_now :
  Z.of_nat (length (requests self)) <= Z.max 0 (max_requests self) ->
  Z.of_nat (length (requests (snd (acquire_at self t_now))))
    <= Z.max 0 (max_requests self).
Proof.
  intros Hlen. unfold acquire_at.
  pose proof (remove_old_length (requests self)
                (t_now - time_window self)%Q) as Hr.
  destruct (Z.ltb_spec
              (Z.of_nat (length (remove_old (requests self)
                                   (t_now - time_window self)%Q)))
              (max_requests self)); cbn; [| lia].
  rewrite length_app. cbn. lia.
Qed.

(** X14.  The deque never holds more than [max_requests] instants:
    if it does not at the start (the deque of a new limiter is empty),
    it does not after any series of [acquire] calls, at whatever
    instants and in whatever order they are made. *)
Theorem deque_length_bounded (ts : list Q) self :
  Z.of_nat (length (requests self)) <= Z.max 0 (max_requests self) ->
  Z.of_nat (length (requests (snd (acquire_each self ts))))
    <= Z.max 0 (max_requests self).
Proof.
  revert self. induction ts as [| t_now rest IH]; intros self Hlen;
    [exact Hlen |].
  cbn [acquire_each].
  pose proof (acquire_at_length self t_now Hlen) as H1.
  destruct (acquire_at_config self t_now) as [Hm _].
  destruct (acquire_at self t_now) as [b self1]. cbn [snd] in *.
  specialize (IH self1). rewrite Hm in IH. specialize (IH H1).
  destruct (acquire_each self1 rest) as [bs self2]. exact IH.
Qed.

Lemma inject_Z_succ (n : nat) :
  (inject_Z (Z.of_nat (Datatypes.S n)) == inject_Z (Z.of_nat n) + 1)%Q.
Proof. rewrite Nat2Z.inj_succ, <- Z.add_1_r, inject_Z_plus. reflexivity. Qed.

Ltac grant_now self w l :=
  exists (mk (max_requests self) (time_window self) (l ++ [clock (env w)])),
         w, O, l;
  cbn [repeat requests]; rewrite app_nil_r, length_app; cbn [length];
  repeat split; auto; lia.

(** X15.  [wait_for_permit] returns once the oldest instant of a full
    deque has left the window: when [max_requests >= 1], the deque holds
    at most [max_requests] instants and the clock after [fuel] polls of
    0.1 s has reached the oldest instant plus [time_window] (or the
    deque is empty), the loop returns within [fuel] polls, having slept
    0.1 s per poll and recorded the instant of the grant at the end of
    the deque. *)
Theorem wait_for_permit_returns (fuel : nat) self w :
  1 <= max_requests self ->
  Z.of_nat (length (requests self)) <= max_requests self ->
  match requests self with
  | [] => True
  | r :: _ =>
      (r + time_window self
         <= clock (env w) + inject_Z (Z.of_nat fuel) * (1 # 10))%Q
  end ->
  exists self' w' k pre,
    wait_for_permit fuel self w = Some (self', w') /\
    (k <= fuel)%nat /\
    trace w' = trace w ++ repeat (EvSleep (1 # 10)) k /\
    requests self' = pre ++ [clock (env w')] /\
    Z.of_nat (length (requests self')) <= max_requests self.
Proof.
  revert self w. induction fuel as [| fuel IH]; intros self w HR Hlen Hhead;
    cbn [wait_for_permit]; unfold acquire, acquire_at;
    set (c := (clock (env w) - time_window self)%Q);
    destruct (remove_old_cases (requests self) c) as [[Heq Hlive] | Hshort].
  - rewrite Heq.
    destruct (Z.ltb_spec (Z.of_nat (length (requests self)))
                (max_requests self)) as [Hlt | Hge].
    + grant_now self w (requests self).
    + destruct (requests self) as [| r rest]; [cbn [length] in Hge; lia |].
      unfold c in Hlive. cbv beta iota in Hhead.
      change (inject_Z (Z.of_nat 0)) with 0%Q in Hhead. lra.
  - destruct (Z.ltb_spec
                (Z.of_nat (length (remove_old (requests self) c)))
                (max_requests self)) as [Hlt | Hge]; [| lia].
    grant_now self w (remove_old (requests self) c).
  - rewrite Heq.
    destruct (Z.ltb_spec (Z.of_nat (length (requests self)))
                (max_requests self)) as [Hlt | Hge].
    + grant_now self w (requests self).
    + cbn [sleep].
      match goal with
      | |- context [wait_for_permit fuel ?s1 ?w1] =>
          destruct (IH s1 w1) as (self' & w' & k & pre & E & Hk & Ht & Hreq & Hl)
      end.
      * assumption.
      * assumption.
      * cbn [requests time_window env clock].
        destruct (requests self) as [| r rest]; [exact I |].
        pose proof (inject_Z_succ fuel) as Hs.
        change (Qle_bool (1 # 10) 0) with false. cbn iota. lra.
      * exists self', w', (Datatypes.S k), pre. rewrite E.
        repeat split; auto; try lia.
        rewrite Ht. cbn [trace repeat]. now rewrite <- app_assoc.
  - destruct (Z.ltb_spec
                (Z.of_nat (length (remove_old (requests self) c)))
                (max_requests self)) as [Hlt | Hge]; [| lia].
    grant_now self w (remove_old (requests self) c).
Qed.

Lemma acquire_at_never self t_now :
  max_requests self <= 0 -> fst (acquire_at self t_now) = false.
Proof.
  intros HR. unfold acquire_at.
  destruct (_ <? _) eqn:E; [apply Z.ltb_lt in E; lia | reflexivity].
Qed.

Lemma wait_for_permit_never (fuel : nat) self w :
  max_requests self <= 0 -> wait_for_permit fuel self w = None.
Proof.
  revert self w. induction fuel as [| fuel IH]; intros self w HR;
    cbn [wait_for_permit]; unfold acquire;
    pose proof (acquire_at_never self (clock (env w)) HR) as Hn;
    destruct (acquire_at_config self (clock (env w))) as [Hm _];
    destruct (acquire_at self (clock (env w))) as [b self1];
    cbn [fst snd] in *; subst b; [reflexivity |].
  cbn [sleep]. apply IH. lia.
Qed.

End LimiterBounds.

(** ** The bulkhead *)

Section BulkheadBounds.
Import Bulkhead.
Implicit Types (self : Bulkhead.t).

Lemma release_acquire self b :
  acquire self = Some b -> release b = self.
Proof.
  unfold acquire, release. destruct (_ <=? _); [discriminate |].
  intros [= <-]. destruct self as [n m s a].
  cbn [name max_concurrent semaphore active_operations]. f_equal; lia.
Qed.

(** X16.  A bulkhead with [s >= 0] free permits lets exactly [s]
    entries in: [k] entries with no exit in between succeed when
    [k <= s], leaving [s - k] permits and [k] more active operations,
    and the next entry has to wait when [k > s].  An exit undoes an
    entry. *)
Theorem bulkhead_admits_free_permits (k : nat) self :
  0 <= semaphore self ->
  acquire_times k self =
    (if Z.of_nat k <=? semaphore self then
       Some (mk (name self) (max_concurrent self)
                (semaphore self - Z.of_nat k)
                (active_operations self + Z.of_nat k))
     else None) /\
  (forall b, acquire self = Some b -> release b = self).
Proof.
  intros Hs. split; [| apply release_acquire].
  revert self Hs. induction k as [| k IH]; intros self Hs.
  - destruct self as [n m s a].
    cbn [acquire_times name max_concurrent semaphore active_operations] in *.
    change (Z.of_nat 0) with 0. rewrite Z.sub_0_r, Z.add_0_r.
    destruct (Z.leb_spec 0 s); [reflexivity | lia].
  - cbn [acquire_times]. unfold acquire at 1.
    destruct (Z.leb_spec (semaphore self) 0) as [H0 | Hpos];
      cbn [mbind option_bind].
    + destruct (Z.leb_spec (Z.of_nat (Datatypes.S k)) (semaphore self));
        [lia | reflexivity].
    + rewrite IH
        by (cbn [name max_concurrent semaphore active_operations]; lia).
      cbn [name max_concurrent semaphore active_operations].
      destruct (Z.leb_spec (Z.of_nat k) (semaphore self - 1)),
               (Z.leb_spec (Z.of_nat (Datatypes.S k)) (semaphore self));
        try lia; [| reflexivity].
      f_equal. f_equal; lia.
Qed.

End BulkheadBounds.

(** ** The composed entry point *)

Section EntryPoint.
Import ResilienceManager.
Context {S R : Type}.
Variable str_float : Q -> string.
Implicit Types (self : ResilienceManager.t) (st : Store) (w : World S R)
  (func : Op S R).

Lemma alter_insert_restore {B : Type} (f : B -> B) (l : list B) i x y :
  l !! i = Some x -> f y = x -> alter f i (<[i := y]> l) = l.
Proof.
  intros Hl Hf. apply list_eq. intros j.
  destruct (decide (i = j)) as [<- | Hne].
  - rewrite list_lookup_alter_eq, list_lookup_insert_eq
      by (eapply lookup_lt_Some; eassumption).
    cbn. congruence.
  - now rewrite list_lookup_alter_ne, list_lookup_insert_ne.
Qed.

Lemma inner_keeps_other_objects self func cb_name timeout retry_config st w
    o st' w' :
  _execute_with_circuit_breaker_and_retry str_float self func cb_name
    timeout retry_config st w = Some (o, st', w') ->
  rl_objs st' = rl_objs st /\ bh_objs st' = bh_objs st.
Proof.
  unfold _execute_with_circuit_breaker_and_retry.
  destruct (given cb_name ≫= get_circuit_breaker self) as [l |].
  - destruct (cb_objs st !! l) as [cb |]; [| discriminate].
    destruct (CircuitBreaker.call cb func w) as [[o1 cb'] w1].
    intros [= <- <- <-]. auto.
  - destruct retry_config as [rc |];
      [destruct (RetryManager.execute_with_retry _ _ _ _)
      | destruct (TimeoutManager.execute_with_timeout _ _ _ _ _)];
      intros [= <- <- <-]; auto.
Qed.

Lemma rate_limit_keeps_other_objects (fuel : nat) self rl_name st w st1 w1 :
  apply_rate_limit fuel self rl_name st w = Some (st1, w1) ->
  cb_objs st1 = cb_objs st /\ bh_objs st1 = bh_objs st.
Proof.
  unfold apply_rate_limit.
  destruct (given rl_name ≫= get_rate_limiter self) as [l |].
  - destruct (rl_objs st !! l) as [rl |]; [| discriminate].
    destruct (RateLimiter.wait_for_permit fuel rl w) as [[rl' w'] |];
      [| discriminate].
    intros [= <- <-]. auto.
  - intros [= <- <-]. auto.
Qed.

(** X17.  The bulkhead permit is given back on every exit: when
    [execute_with_resilience] ends, with a result or with an exception,
    the bulkheads in the store are exactly as they were before the
    call. *)
Theorem bulkhead_restored_on_exit (fuel : nat) self func cb_name rl_name
    bh_name timeout retry_config st w o st' w' :
  execute_with_resilience str_float fuel self func cb_name rl_name bh_name
    timeout retry_config st w = Some (o, st', w') ->
  bh_objs st' = bh_objs st.
Proof.
  unfold execute_with_resilience.
  destruct (apply_rate_limit fuel self rl_name st w) as [[st1 w1] |] eqn:Erl;
    [| discriminate].
  destruct (rate_limit_keeps_other_objects _ _ _ _ _ _ _ Erl) as [_ Hbh1].
  destruct (given bh_name ≫= get_bulkhead self) as [l |].
  - destruct (bh_objs st1 !! l) as [b |] eqn:Eb; [| discriminate]. cbn.
    destruct (Bulkhead.acquire b) as [b1 |] eqn:Ea; [| discriminate]. cbn.
    destruct (_execute_with_circuit_breaker_and_retry _ _ _ _ _ _ _ _)
      as [[[o3 st3] w3] |] eqn:Ein; [| discriminate].
    apply inner_keeps_other_objects in Ein as [_ Hbh3]. cbn in Hbh3.
    intros [= <- <- <-]. cbn. rewrite Hbh3, <- Hbh1.
    apply alter_insert_restore with (x := b); [assumption |].
    now apply release_acquire.
  - intros Hin. apply inner_keeps_other_objects in Hin as [_ Hbh].
    congruence.
Qed.

(** X18.  A name that is [None], empty or not registered switches
    its protection off without any error: with no breaker, limiter and
    bulkhead found, [execute_with_resilience] is the retry loop around
    the timeout-bounded operation (or the timeout-bounded operation
    alone when there is no retry configuration), and the store is left
    as it was. *)
Theorem unknown_names_are_ignored (fuel : nat) self func cb_name rl_name
    bh_name timeout retry_config st w :
  given cb_name ≫= get_circuit_breaker self = None ->
  given rl_name ≫= get_rate_limiter self = None ->
  given bh_name ≫= get_bulkhead self = None ->
  execute_with_resilience str_float fuel self func cb_name rl_name bh_name
    timeout retry_config st w
  = let '(o, w') :=
      match retry_config with
      | Some rc =>
          RetryManager.execute_with_retry rc
            (Ok "execute_with_timeout"%string)
            (TimeoutManager.execute_with_timeout str_float
               (timeout_manager self) func timeout) None w
      | None =>
          TimeoutManager.execute_with_timeout str_float
            (timeout_manager self) func timeout w
      end in
    Some (o, st, w').
Proof.
  intros Hcb Hrl Hbh.
  unfold execute_with_resilience, apply_rate_limit,
    _execute_with_circuit_breaker_and_retry.
  now rewrite Hrl, Hbh, Hcb.
Qed.

Lemma execute_with_timeout_one_call (tm : TimeoutManager.t) func timeout
    name :
  op_name func = Ok name ->
  one_call (TimeoutManager.execute_with_timeout str_float tm func timeout)
    (fun oc o =>
       forall e, oc = Raise e ->
         if isinstance e AsyncioTimeoutError
         then exists msg, o = Raise (mkExn TimeoutException msg)
         else o = Raise e).
Proof.
  intros Hname w. unfold TimeoutManager.execute_with_timeout, invoke.
  rewrite Hname.
  destruct (run func _ (env w)) as [[r | e] e1]; cbn.
  - eexists. split; [reflexivity |]. discriminate.
  - destruct (isinstance e AsyncioTimeoutError) eqn:Et; cbn;
      (eexists; split; [reflexivity |]); intros e0 [= <-]; rewrite Et; eauto.
Qed.

(** X19.  When no breaker is found, a retry configuration with
    [max_attempts = N >= 1] is given, the operation has a [__name__]
    and the exponential power stays in the float range for the attempts
    below N, the entry point always ends: the operation is invoked
    between 1 and N times, with one sleep of at most [max_delay] between
    two invocations, and the store is unchanged.  An exception of class
    [Exception] ends the run only at the N-th invocation; and when every
    invocation runs into its deadline, the run ends with a
    [TimeoutException]: timeouts are retried like any other failure. *)
Theorem retry_without_breaker self func cb_name timeout rc st w name :
  given cb_name ≫= get_circuit_breaker self = None ->
  1 <= RetryManager.max_attempts rc ->
  op_name func = Ok name ->
  (forall a, 1 <= a < RetryManager.max_attempts rc ->
             delay_computable rc a) ->
  exists o w' evs,
    _execute_with_circuit_breaker_and_retry str_float self func cb_name
      timeout (Some rc) st w = Some (o, st, w') /\
    trace w' = trace w ++ evs /\
    (1 <= length (calls evs))%nat /\
    Z.of_nat (length (calls evs)) <= RetryManager.max_attempts rc /\
    Datatypes.S (length (sleeps evs)) = length (calls evs) /\
    Forall (fun d => (d <= RetryManager.max_delay rc)%Q) (sleeps evs) /\
    (forall e, o = Raise e -> isinstance e Exception = true ->
       Z.of_nat (length (calls evs)) = RetryManager.max_attempts rc) /\
    (Forall (fun oc => exists e,
               oc = Raise e /\ isinstance e AsyncioTimeoutError = true)
            (calls evs) ->
     exists msg, o = Raise (mkExn TimeoutException msg)).
Proof.
  intros Hcb HN Hname Hcomp. unfold _execute_with_circuit_breaker_and_retry.
  rewrite Hcb. unfold RetryManager.execute_with_retry.
  destruct (RetryManager.retry_loop _ _ _ _ _ _ w) as [o w'] eqn:Eloop.
  apply (retry_loop_attempts rc _ _ _ _
           (execute_with_timeout_one_call (timeout_manager self) func timeout
              name Hname)
           (Z.to_nat (RetryManager.max_attempts rc - 1)) 1) in Eloop
    as (evs & outs & o_last & Ht & HF2 & Hlen & Hcaught & Hsl & Hsd & Hex);
    [| lia | lia].
  destruct (Hex (ex_intro _ _ eq_refl) Hcomp) as [<- Hfull].
  pose proof (Forall2_length _ _ _ HF2) as Hl2.
  rewrite length_app in Hl2. cbn [length] in Hl2.
  exists o, w', evs. repeat split; auto; try lia.
  - intros e He Hi. rewrite Hl2, (Hfull e He); [lia |].
    cbn. now rewrite Hi.
  - intros Hall. apply Forall2_app_inv_r in HF2
      as (ocs1 & ocs2 & _ & Hlast & Eq).
    inversion Hlast as [| oc ? ? ? HP Hnil]; subst. inversion Hnil; subst.
    rewrite Eq in Hall. apply Forall_app in Hall as [_ Hoc].
    inversion Hoc as [| ? ? (e & -> & Ht2) _]; subst.
    specialize (HP e eq_refl). now rewrite Ht2 in HP.
Qed.

(** X20.  A rate limiter with [max_requests <= 0] grants nothing:
    every [acquire] returns false, [wait_for_permit] does not return
    within any number of polls, and a call of [execute_with_resilience]
    that names such a limiter has no outcome, however long it polls. *)
Theorem zero_rate_limit_blocks (fuel : nat) self func cb_name rl_name
    bh_name timeout retry_config st w rate_limiter rl :
  given rl_name ≫= get_rate_limiter self = Some rate_limiter ->
  rl_objs st !! rate_limiter = Some rl ->
  RateLimiter.max_requests rl <= 0 ->
  (forall t_now, fst (RateLimiter.acquire_at rl t_now) = false) /\
  RateLimiter.wait_for_permit fuel rl w = None /\
  execute_with_resilience str_float fuel self func cb_name rl_name bh_name
    timeout retry_config st w = None.
Proof.
  intros Hrl Hobj HR. split; [| split].
  - intros t_now. now apply acquire_at_never.
  - now apply wait_for_permit_never.
  - unfold execute_with_resilience, apply_rate_limit.
    rewrite Hrl, Hobj. now rewrite wait_for_permit_never.
Qed.

End EntryPoint.

(** ** The statistics *)

Section Statistics.
Import ResilienceManager.
Implicit Types (self : ResilienceManager.t) (st : Store) (name : string).

(** X21.  Creating a breaker under a name puts the statistics of a
    new breaker (closed, all counters 0, no failure or success time)
    under that name in [get_statistics], in place of what was reported
    for a breaker registered under it before, and the statistics
    reported for every other name stay as they were. *)
Theorem create_resets_statistics self name config st :
  map_Forall (fun _ l => l < length (cb_objs st))%nat (circuit_breakers self) ->
  let '(_, self', st') := create_circuit_breaker self name config st in
  stats_circuit_breakers (get_statistics self' st') =
    <[name := CircuitBreaker.mkStats CircuitBreaker.CLOSED 0 0 None None
                0 0 0]>
      (stats_circuit_breakers (get_statistics self st)) /\
  stats_rate_limiters (get_statistics self' st') =
    stats_rate_limiters (get_statistics self st) /\
  stats_bulkheads (get_statistics self' st') =
    stats_bulkheads (get_statistics self st).
Proof.
  intros Hwf. cbn. split; [| split; reflexivity].
  apply map_eq. intros n. rewrite lookup_omap.
  destruct (decide (name = n)) as [<- | Hne].
  - rewrite !lookup_insert_eq. cbn.
    now rewrite list_lookup_middle by reflexivity.
  - rewrite !lookup_insert_ne by assumption. rewrite lookup_omap.
    destruct (circuit_breakers self !! n) as [l |] eqn:El; [| reflexivity].
    cbn. rewrite lookup_app_l; [reflexivity |].
    exact (Hwf n l El).
Qed.

End Statistics.

(** ** Concrete runs of the further properties *)

Module MoreRuns.
Import Fixtures.

Ltac q_compare := unfold Qle, Qlt; simpl; lia.

Lemma ok_op_succeeds : op_succeeds ok_op.
Proof. intros deadline e0. do 2 eexists. reflexivity. Defined.

Lemma failing_op_always_fails : op_fails failing_op.
Proof. intros deadline e0. do 2 eexists. split; reflexivity. Defined.

Lemma execute_with_retry_attempts_witness :
  exists evs outs,
    calls evs
      = outs ++ [fst (RetryManager.execute_with_retry exponential_config
                        (op_name flaky_op) (invoke flaky_op None) None
                        (world_at 0))] /\
    Z.of_nat (length outs) < 3.
Proof.
  destruct (execute_with_retry_attempts exponential_config flaky_op None None
              (world_at 0)
              (fst (RetryManager.execute_with_retry exponential_config
                      (op_name flaky_op) (invoke flaky_op None) None
                      (world_at 0)))
              (snd (RetryManager.execute_with_retry exponential_config
                      (op_name flaky_op) (invoke flaky_op None) None
                      (world_at 0))))
    as (evs & outs & o_last & _ & Hc & Hl & _ & _ & _ & Hex).
  - simpl. lia.
  - reflexivity.
  - exists evs, outs. split; [| assumption].
    destruct Hex as [-> _]; [| | assumption].
    + exists "fetch"%string. reflexivity.
    + intros a Ha _.
      assert (Hcase : a = 1 \/ a = 2) by (simpl in Ha; lia).
      destruct Hcase as [-> | ->]; vm_compute; reflexivity.
Defined.

Lemma execute_with_retry_no_attempts_witness :
  RetryManager.execute_with_retry no_attempts_config (op_name failing_op)
    (invoke failing_op None) None (world_at 0)
  = (Raise (mkExn TypeError "exceptions must derive from BaseException"),
     world_at 0).
Proof.
  apply (execute_with_retry_no_attempts no_attempts_config
           (op_name failing_op) (invoke failing_op None) None (world_at 0)).
  simpl. lia.
Defined.

Lemma execute_with_retry_exhausts_witness :
  exists e w' evs,
    RetryManager.execute_with_retry exponential_config (op_name failing_op)
      (invoke failing_op None) None (world_at 0) = (Raise e, w') /\
    trace w' = trace (world_at 0) ++ evs /\
    length (calls evs) = 3%nat /\
    last (calls evs) = Some (Raise e) /\
    Datatypes.S (length (sleeps evs)) = length (calls evs).
Proof.
  apply (execute_with_retry_exhausts exponential_config failing_op None None
           (world_at 0) "fetch"%string).
  - simpl. lia.
  - reflexivity.
  - intros a Ha _.
    assert (Hcase : a = 1 \/ a = 2) by (simpl in Ha; lia).
    destruct Hcase as [-> | ->]; vm_compute; reflexivity.
  - intros e0. do 2 eexists. split; reflexivity.
Defined.

Lemma random_strategy_delay_range_witness :
  exists d w',
    RetryManager.strategy_delay random_config 2 (world_at 0) = (Ok d, w') /\
    (1 <= d)%Q /\ (d <= 1 * inject_Z 2)%Q /\
    (forall n, rng (env w') n = rng (env (world_at 0)) (Datatypes.S n)).
Proof.
  apply (random_strategy_delay_range random_config 2 (world_at 0)).
  - reflexivity.
  - lia.
  - q_compare.
  - q_compare.
  - q_compare.
Defined.

Lemma jittered_delay_range_witness :
  exists d0 d w',
    RetryManager.strategy_delay exponential_config 2 (world_at 0)
      = (Ok d0, world_at 0) /\
    RetryManager.calculate_delay exponential_config 2 (world_at 0)
      = (Ok d, w') /\
    (py_min ((1 # 2) * d0) 60 <= d)%Q /\
    (d <= py_min ((3 # 2) * d0) 60)%Q /\
    (forall n, rng (env w') n = rng (env (world_at 0)) (Datatypes.S n)).
Proof.
  apply (jittered_delay_range exponential_config 2 (world_at 0)).
  - reflexivity.
  - discriminate.
  - lia.
  - q_compare.
  - q_compare.
  - intros _. vm_compute. reflexivity.
  - q_compare.
  - q_compare.
Defined.

Lemma clamped_delay_monotone_witness :
  exists d1 d2,
    RetryManager.calculate_delay linear_config 1 (world_at 0)
      = (Ok d1, world_at 0) /\
    RetryManager.calculate_delay linear_config 3 (world_at 0)
      = (Ok d2, world_at 0) /\
    (d1 <= d2)%Q.
Proof.
  apply (clamped_delay_monotone linear_config 1 3 (world_at 0)).
  - reflexivity.
  - discriminate.
  - q_compare.
  - q_compare.
  - lia.
  - lia.
  - intros H. discriminate H.
Defined.

Lemma calculate_delay_nonnegative_witness :
  exists d w',
    RetryManager.calculate_delay random_config 2 (world_at 0) = (Ok d, w') /\
    (0 <= d)%Q.
Proof.
  apply (calculate_delay_nonnegative random_config 2 (world_at 0)).
  - q_compare.
  - q_compare.
  - q_compare.
  - intros n. split; q_compare.
  - intros _ H. discriminate H.
Defined.

Lemma half_open_successes_close_witness :
  CircuitBreaker.state
    (snd (fst (call_each half_open_breaker [ok_op; ok_op] (world_at 120))))
  = CircuitBreaker.CLOSED.
Proof.
  apply (half_open_successes_close [ok_op; ok_op] half_open_breaker
           (world_at 120)).
  - repeat constructor; apply ok_op_succeeds.
  - reflexivity.
  - discriminate.
  - simpl. lia.
Defined.

Lemma half_open_failure_reopens_witness :
  exists e' self' w',
    CircuitBreaker.call half_open_breaker failing_op (world_at 120)
      = (Raise e', self', w') /\
    CircuitBreaker.state self' = CircuitBreaker.OPEN.
Proof.
  destruct (half_open_failure_reopens half_open_breaker failing_op
              (world_at 120))
    as (e' & self' & w' & Hc & Hs & _).
  - reflexivity.
  - apply failing_op_always_fails.
  - exists e', self', w'. split; assumption.
Defined.

Lemma success_resets_failure_count_witness :
  CircuitBreaker.state
    (snd (fst (call_each (CircuitBreaker.init "api" small_config)
                 ([failing_op; failing_op] ++ ok_op :: [failing_op; failing_op])
                 (world_at 0))))
  = CircuitBreaker.CLOSED.
Proof.
  apply (success_resets_failure_count [failing_op; failing_op]
           [failing_op; failing_op] ok_op
           (CircuitBreaker.init "api" small_config) (world_at 0)).
  - reflexivity.
  - repeat constructor; apply failing_op_always_fails.
  - apply ok_op_succeeds.
  - repeat constructor; apply failing_op_always_fails.
  - simpl. lia.
  - simpl. lia.
Defined.

Lemma call_keeps_breaker_consistent_witness :
  consistent
    (snd (fst (CircuitBreaker.call half_open_breaker failing_op
                 (world_at 120)))).
Proof.
  apply (call_keeps_breaker_consistent half_open_breaker failing_op
           (world_at 120)).
  unfold consistent. simpl.
  repeat split; try discriminate; try lia.
Defined.

Lemma call_reports_timeout_witness :
  CircuitBreaker.call (CircuitBreaker.init "api" small_config) timeout_op
    (world_at 0)
  = (Raise (mkExn CircuitBreakerTimeoutException
                  "Circuit breaker api timeout"),
     CircuitBreaker._record_failure
       (CircuitBreaker.init "api" small_config) 0,
     mkWorld (tick (env (world_at 0)))
             [EvCall (Raise (mkExn AsyncioTimeoutError ""))]).
Proof.
  apply (call_reports_timeout (CircuitBreaker.init "api" small_config)
           timeout_op (world_at 0)
           (CircuitBreaker.init "api" small_config)
           (mkExn AsyncioTimeoutError "") (tick (env (world_at 0))));
    reflexivity.
Defined.

Lemma call_passes_base_exception_witness :
  fst (fst (CircuitBreaker.call open_breaker cancelled_op (world_at 200)))
  = Raise (mkExn CancelledError "").
Proof.
  destruct (call_passes_base_exception open_breaker cancelled_op
              (world_at 200) (mkExn CancelledError "")
              (tick (env (world_at 200))) eq_refl eq_refl
              (CircuitBreaker.mk "api" CircuitBreaker.default_config
                 CircuitBreaker.HALF_OPEN 5 0 (Some 100%Q) None 5 5 0)
              eq_refl) as [Hc _].
  now rewrite Hc.
Defined.

Lemma deque_length_bounded_witness :
  Z.of_nat (length (RateLimiter.requests
                      (snd (acquire_each (RateLimiter.init 2 10)
                              [5%Q; 3%Q; 9%Q; 4%Q]))))
  <= Z.max 0 2.
Proof.
  apply (deque_length_bounded [5%Q; 3%Q; 9%Q; 4%Q] (RateLimiter.init 2 10)).
  simpl. lia.
Defined.

Lemma wait_for_permit_returns_witness :
  exists self' w' k pre,
    RateLimiter.wait_for_permit 100 (RateLimiter.mk 2 10 [0%Q; 1%Q])
      (world_at 5) = Some (self', w') /\
    (k <= 100)%nat /\
    trace w' = trace (world_at 5) ++ repeat (EvSleep (1 # 10)) k /\
    RateLimiter.requests self' = pre ++ [clock (env w')] /\
    Z.of_nat (length (RateLimiter.requests self')) <= 2.
Proof.
  apply (wait_for_permit_returns 100 (RateLimiter.mk 2 10 [0%Q; 1%Q])
           (world_at 5)).
  - simpl. lia.
  - simpl. lia.
  - q_compare.
Defined.

Lemma bulkhead_admits_free_permits_witness :
  acquire_times 2 (Bulkhead.mk "pool" 2 2 0)
    = Some (Bulkhead.mk "pool" 2 0 2) /\
  acquire_times 3 (Bulkhead.mk "pool" 2 2 0) = None.
Proof.
  split.
  - apply (proj1 (bulkhead_admits_free_permits 2 (Bulkhead.mk "pool" 2 2 0)
                    ltac:(simpl; lia))).
  - apply (proj1 (bulkhead_admits_free_permits 3 (Bulkhead.mk "pool" 2 2 0)
                    ltac:(simpl; lia))).
Defined.

Lemma bulkhead_restored_on_exit_witness :
  match ResilienceManager.execute_with_resilience (fun _ => ""%string) 0
          pool_manager failing_op None None (Some "pool"%string) None None
          pool_store (world_at 0) with
  | Some (o, st', _) =>
      o = Raise value_error /\
      ResilienceManager.bh_objs st' = ResilienceManager.bh_objs pool_store
  | None => False
  end.
Proof.
  destruct (ResilienceManager.execute_with_resilience _ _ _ _ _ _ _ _ _ _ _)
    as [[[o st'] w'] |] eqn:E.
  - split.
    + vm_compute in E. now injection E as <- _ _.
    + exact (bulkhead_restored_on_exit _ _ _ _ _ _ _ _ _ _ _ _ _ _ E).
  - vm_compute in E. discriminate E.
Defined.

Lemma unknown_names_are_ignored_witness :
  ResilienceManager.execute_with_resilience (fun _ => ""%string) 0
    ResilienceManager.init ok_op (Some "nope"%string) (Some ""%string) None
    None None ResilienceManager.empty_store (world_at 0)
  = let '(o, w') :=
      TimeoutManager.execute_with_timeout (fun _ => ""%string)
        TimeoutManager.init ok_op None (world_at 0) in
    Some (o, ResilienceManager.empty_store, w').
Proof.
  apply (unknown_names_are_ignored (fun _ => ""%string) 0
           ResilienceManager.init ok_op (Some "nope"%string)
           (Some ""%string) None None None ResilienceManager.empty_store
           (world_at 0)); reflexivity.
Defined.

Lemma retry_without_breaker_witness :
  exists o w' evs,
    ResilienceManager._execute_with_circuit_breaker_and_retry
      (fun _ => ""%string) ResilienceManager.init timeout_op
      (Some "nope"%string) None (Some exponential_config)
      ResilienceManager.empty_store (world_at 0)
    = Some (o, ResilienceManager.empty_store, w') /\
    trace w' = trace (world_at 0) ++ evs /\
    Z.of_nat (length (calls evs)) <= 3.
Proof.
  destruct (retry_without_breaker (fun _ => ""%string)
              ResilienceManager.init timeout_op (Some "nope"%string) None
              exponential_config ResilienceManager.empty_store (world_at 0)
              "slow"%string)
    as (o & w' & evs & He & Ht & _ & Hn & _).
  - reflexivity.
  - simpl. lia.
  - reflexivity.
  - intros a Ha _.
    assert (Hcase : a = 1 \/ a = 2) by (simpl in Ha; lia).
    destruct Hcase as [-> | ->]; vm_compute; reflexivity.
  - exists o, w', evs. repeat split; assumption.
Defined.

Lemma zero_rate_limit_blocks_witness :
  ResilienceManager.execute_with_resilience (fun _ => ""%string) 50
    blocked_manager ok_op None (Some "none"%string) None None None
    blocked_store (world_at 0) = None.
Proof.
  apply (zero_rate_limit_blocks (fun _ => ""%string) 50 blocked_manager
           ok_op None (Some "none"%string) None None None blocked_store
           (world_at 0) O (RateLimiter.mk 0 10 [])).
  - reflexivity.
  - reflexivity.
  - simpl. lia.
Defined.

Lemma create_resets_statistics_witness :
  ResilienceManager.stats_circuit_breakers
    (ResilienceManager.get_statistics
       (snd (fst (ResilienceManager.create_circuit_breaker
                    ResilienceManager.init "api"
                    CircuitBreaker.default_config
                    ResilienceManager.empty_store)))
       (snd (ResilienceManager.create_circuit_breaker
               ResilienceManager.init "api" CircuitBreaker.default_config
               ResilienceManager.empty_store)))
  = <["api"%string := CircuitBreaker.mkStats CircuitBreaker.CLOSED 0 0
                        None None 0 0 0]>
      (ResilienceManager.stats_circuit_breakers
         (ResilienceManager.get_statistics ResilienceManager.init
            ResilienceManager.empty_store)).
Proof.
  apply (create_resets_statistics ResilienceManager.init "api"
           CircuitBreaker.default_config ResilienceManager.empty_store).
  apply map_Forall_empty.
Defined.

End MoreRuns.
